(** * Canvas editor engine of memelytics (src/components/canvas-editor.tsx)

    Shallow embedding of the editing engine of the second [CanvasEditor]
    variant of the file (the one exposing the public handle: [updateText],
    [scaleImage], [bringForwardImage], [getDataURL], ...), together with its
    pointer handlers and the overlay-image import ([onAddImages]).

    Numbers of the source (JS doubles) are modelled as exact rationals [Q];
    [Math.round] is [floor (x + 1/2)], [Math.min]/[Math.max] are written out.
    Browser services that the engine only consults (font metrics of
    [ctx.measureText], [Math.cos]/[Math.sin] of an angle) are parameters of
    the sections that use them. The mutable refs ([historyRef],
    [historyIndexRef]) and React state ([state], the selection ids) are the
    fields of an explicit editor record; every callback is a function from
    editor to editor. *)

From Stdlib Require Import Arith QArith Qround Qabs Lqa String Bool Lia List.
Import ListNotations.

Open Scope Q_scope.

(** ** JS numeric helpers *)

(** [Math.min(a, b)] and [Math.max(a, b)] *)
Definition Math_min (a b : Q) : Q := if Qle_bool a b then a else b.
Definition Math_max (a b : Q) : Q := if Qle_bool a b then b else a.

(** [Math.round(x)]: the nearest integer, halves rounded up. *)
Definition Math_round (x : Q) : Q := inject_Z (Qfloor (x + (1 # 2))).

(** ** History manager ([pushHistory], [undo], [redo], [reset]) *)

Module History.

Record t (A : Type) := mk {
  entries : list A;   (* historyRef.current *)
  cursor : nat;       (* historyIndexRef.current *)
  current : A         (* the React [state] *)
}.
Arguments mk {A}.
Arguments entries {A}.
Arguments cursor {A}.
Arguments current {A}.

Section Ops.
Context {A : Type}.

(** [historyRef.current = historyRef.current.slice(0, index + 1);
     historyRef.current.push(next); index = length - 1; setState(next)] *)
Definition pushHistory (h : t A) (next : A) : t A :=
  let e := firstn (cursor h + 1) (entries h) ++ [next] in
  mk e (length e - 1)%nat next.

Definition canUndo (h : t A) : bool := Nat.ltb 0 (cursor h).
Definition canRedo (h : t A) : bool := Nat.ltb (cursor h) (length (entries h) - 1).

(** [if (!canUndo) return; index -= 1; setState(historyRef.current[index])]
    with [canUndo] read from the live refs. The source reads the value of
    the last render; the two agree after a push of a fresh object (every
    handle operation), which re-renders. [Render] below models the case
    where they differ. *)
Definition undo (h : t A) : t A :=
  if canUndo h then
    let i := (cursor h - 1)%nat in mk (entries h) i (nth i (entries h) (current h))
  else h.

(** [if (!canRedo) return; index += 1; setState(historyRef.current[index])] *)
Definition redo (h : t A) : t A :=
  if canRedo h then
    let i := S (cursor h) in mk (entries h) i (nth i (entries h) (current h))
  else h.

(** [reset]: a single entry, cursor 0. *)
Definition reset (base : A) : t A := mk [base] 0%nat base.

(** The cursor addresses an entry (true of every history built from [reset]
    by the operations above). *)
Definition wf (h : t A) : Prop := (cursor h < length (entries h))%nat.

End Ops.
End History.

Import History.

(** ** Layer model *)

Record TextItem := mkText {
  t_id : string;
  t_text : string;
  t_x : Q;               (* left edge *)
  t_y : Q;               (* baseline-bottom *)
  t_size : Q;
  t_color : string;
  t_font : string;
  t_rotationDeg : option Q
}.

Record Stroke := mkStroke {
  s_id : string;
  s_points : list (Q * Q);
  s_color : string;
  s_size : Q
}.

Record ImageItem := mkImage {
  i_id : string;
  i_src : string;
  i_x : Q;
  i_y : Q;
  i_w : Q;
  i_h : Q
}.

Record EditorState := mkState {
  rotationDeg : Q;
  bgColor : string;
  texts : list TextItem;
  strokes : list Stroke;
  images : list ImageItem
}.

Definition defaultState : EditorState := mkState 0 "#ffffff" [] [] [].

Definition set_texts (s : EditorState) (l : list TextItem) : EditorState :=
  mkState (rotationDeg s) (bgColor s) l (strokes s) (images s).
Definition set_strokes (s : EditorState) (l : list Stroke) : EditorState :=
  mkState (rotationDeg s) (bgColor s) (texts s) l (images s).
Definition set_images (s : EditorState) (l : list ImageItem) : EditorState :=
  mkState (rotationDeg s) (bgColor s) (texts s) (strokes s) l.

(** [Partial<TextItem>]: [None] is a key absent from the object. *)
Record TextPatch := mkPatch {
  p_text : option string;
  p_x : option Q;
  p_y : option Q;
  p_size : option Q;
  p_color : option string;
  p_font : option string;
  p_rotationDeg : option (option Q)
}.

Definition pick {X} (o : option X) (d : X) : X :=
  match o with Some v => v | None => d end.

(** [{ ...t, ...partial }] (the id is never part of a patch in the callers). *)
Definition apply_patch (t : TextItem) (p : TextPatch) : TextItem :=
  mkText (t_id t) (pick (p_text p) (t_text t)) (pick (p_x p) (t_x t))
    (pick (p_y p) (t_y t)) (pick (p_size p) (t_size t))
    (pick (p_color p) (t_color t)) (pick (p_font p) (t_font t))
    (pick (p_rotationDeg p) (t_rotationDeg t)).

Definition FIXED_CANVAS_WIDTH : Q := 800.
Definition FIXED_CANVAS_HEIGHT : Q := 600.

(** ** The editor: refs and React state of one [CanvasEditor] instance *)

Record Editor := mkEditor {
  hist : History.t EditorState;          (* historyRef, historyIndexRef, state *)
  baseImage : option (Q * Q);            (* image / imageNatural (natural w, h) *)
  selectedTextId : option string;
  selectedImageId : option string;
  editingTextId : option string;
  imageMap : list (string * (Q * Q));    (* imageMapRef: id -> natural w, h *)
  canvasMounted : bool                   (* canvasRef.current <> null *)
}.

Definition state (ed : Editor) : EditorState := current (hist ed).

Definition set_hist (ed : Editor) (h : History.t EditorState) : Editor :=
  mkEditor h (baseImage ed) (selectedTextId ed) (selectedImageId ed)
    (editingTextId ed) (imageMap ed) (canvasMounted ed).
Definition set_selectedTextId (ed : Editor) (o : option string) : Editor :=
  mkEditor (hist ed) (baseImage ed) o (selectedImageId ed)
    (editingTextId ed) (imageMap ed) (canvasMounted ed).
Definition set_selectedImageId (ed : Editor) (o : option string) : Editor :=
  mkEditor (hist ed) (baseImage ed) (selectedTextId ed) o
    (editingTextId ed) (imageMap ed) (canvasMounted ed).
Definition set_editingTextId (ed : Editor) (o : option string) : Editor :=
  mkEditor (hist ed) (baseImage ed) (selectedTextId ed) (selectedImageId ed)
    o (imageMap ed) (canvasMounted ed).
Definition set_imageMap (ed : Editor) (m : list (string * (Q * Q))) : Editor :=
  mkEditor (hist ed) (baseImage ed) (selectedTextId ed) (selectedImageId ed)
    (editingTextId ed) m (canvasMounted ed).

(** [pushHistory] of the component. *)
Definition push (ed : Editor) (next : EditorState) : Editor :=
  set_hist ed (pushHistory (hist ed) next).

(** [contentSize] (and [getImageBounds], which has the same fallback). *)
Definition contentSize (ed : Editor) : Q * Q :=
  match baseImage ed with
  | None => (FIXED_CANVAS_WIDTH, FIXED_CANVAS_HEIGHT)
  | Some (w, h) => (w, h)
  end.

Definition id_is (id : string) (s : string) : bool := String.eqb s id.

(** [selectedTextId === id] with [null] for [None]. *)
Definition sel_is (o : option string) (id : string) : bool :=
  match o with Some s => String.eqb s id | None => false end.

(** [Array.prototype.findIndex]; [None] stands for [-1]. *)
Fixpoint findIndex {X} (p : X -> bool) (l : list X) : option nat :=
  match l with
  | [] => None
  | x :: r => if p x then Some 0%nat else option_map S (findIndex p r)
  end.

(** [arr.splice(idx, 1)] on a copy: the array without its element [idx]. *)
Definition remove_at {X} (idx : nat) (l : list X) : list X :=
  firstn idx l ++ skipn (S idx) l.

(** ** Public handle operations *)

Definition editor_undo (ed : Editor) : Editor := set_hist ed (undo (hist ed)).
Definition editor_redo (ed : Editor) : Editor := set_hist ed (redo (hist ed)).

Definition updateText (id : string) (partial : TextPatch) (ed : Editor) : Editor :=
  let s := state ed in
  let nextTexts :=
    map (fun t => if id_is id (t_id t) then apply_patch t partial else t) (texts s) in
  set_selectedTextId (push ed (set_texts s nextTexts)) (Some id).

Definition removeText (id : string) (ed : Editor) : Editor :=
  let s := state ed in
  let ed' := push ed (set_texts s (filter (fun t => negb (id_is id (t_id t))) (texts s))) in
  if sel_is (selectedTextId ed) id
  then set_editingTextId (set_selectedTextId ed' None) None
  else ed'.

Definition scaleImage (id : string) (factor : Q) (ed : Editor) : Editor :=
  let s := state ed in
  match find (fun x => id_is id (i_id x)) (images s) with
  | None => ed
  | Some it =>
      let '(cw, ch) := contentSize ed in
      let newW := Math_max 16 (Math_round (i_w it * factor)) in
      let newH := Math_max 16 (Math_round (i_h it * factor)) in
      let clampedW := Math_min newW (cw - i_x it) in
      let clampedH := Math_min newH (ch - i_y it) in
      let nextImages :=
        map (fun x => if id_is id (i_id x)
                      then mkImage (i_id x) (i_src x) (i_x x) (i_y x) clampedW clampedH
                      else x) (images s) in
      push ed (set_images s nextImages)
  end.

Definition bringForwardImage (id : string) (ed : Editor) : Editor :=
  let s := state ed in
  match findIndex (fun i => id_is id (i_id i)) (images s) with
  | None => ed
  | Some idx =>
      if Nat.eqb idx (length (images s) - 1) then ed
      else match nth_error (images s) idx with
           | None => ed
           | Some item => push ed (set_images s (remove_at idx (images s) ++ [item]))
           end
  end.

Definition sendBackwardImage (id : string) (ed : Editor) : Editor :=
  let s := state ed in
  match findIndex (fun i => id_is id (i_id i)) (images s) with
  | None | Some 0%nat => ed
  | Some idx =>
      match nth_error (images s) idx with
      | None => ed
      | Some item => push ed (set_images s (item :: remove_at idx (images s)))
      end
  end.

(** [el?.naturalWidth || it.w]: a missing element or a zero size falls back. *)
Definition or_else (v : option Q) (d : Q) : Q :=
  match v with Some n => if Qeq_bool n 0 then d else n | None => d end.

Definition lookup_el (m : list (string * (Q * Q))) (id : string) : option (Q * Q) :=
  option_map snd (find (fun p => id_is id (fst p)) m).

Definition resetImageSize (id : string) (ed : Editor) : Editor :=
  let s := state ed in
  match find (fun i => id_is id (i_id i)) (images s) with
  | None => ed
  | Some it =>
      let '(cw, ch) := contentSize ed in
      let el := lookup_el (imageMap ed) (i_id it) in
      let natW := or_else (option_map fst el) (i_w it) in
      let natH := or_else (option_map snd el) (i_h it) in
      let scale := Math_min (Math_min ((cw - i_x it) / natW) ((ch - i_y it) / natH)) 1 in
      let newW := Math_min (Math_round (natW * scale)) (cw - i_x it) in
      let newH := Math_min (Math_round (natH * scale)) (ch - i_y it) in
      let nextImages :=
        map (fun x => if id_is id (i_id x)
                      then mkImage (i_id x) (i_src x) (i_x x) (i_y x) newW newH
                      else x) (images s) in
      push ed (set_images s nextImages)
  end.

Definition removeImage (id : string) (ed : Editor) : Editor :=
  let s := state ed in
  let ed' := push ed (set_images s (filter (fun i => negb (id_is id (i_id i))) (images s))) in
  if sel_is (selectedImageId ed) id
  then set_selectedImageId ed' None
  else ed'.

(** [addText] (second variant); [id] is the [uid()] of the new text. *)
Definition addText (id : string) (ed : Editor) : Editor :=
  let '(cw, ch) := contentSize ed in
  let s := state ed in
  let newText := mkText id "" (cw / 2) (ch / 2) 20 "#000" "Fredoka One" (Some 0) in
  set_editingTextId (set_selectedTextId (push ed (set_texts s (texts s ++ [newText])))
    (Some id)) (Some id).

(** [state.texts.find((t) => t.id === selectedTextId) || null] *)
Definition getSelectedText (ed : Editor) : option TextItem :=
  match selectedTextId ed with
  | None => None
  | Some id => find (fun t => id_is id (t_id t)) (texts (state ed))
  end.

Definition getSelectedImage (ed : Editor) : option ImageItem :=
  match selectedImageId ed with
  | None => None
  | Some id => find (fun i => id_is id (i_id i)) (images (state ed))
  end.

(** ** Pointer sessions ([transformRef]) and tools *)

Inductive Tool := ToolNone | ToolRotate | ToolText | ToolDraw | ToolDownload | ToolImage.
Inductive Mode := ModeDrag | ModeRotate | ModeResize.
Inductive Target := TargetText | TargetImage.

Record Transform := mkTransform {
  tf_mode : Mode;
  tf_id : string;
  tf_target : option Target;
  offsetX : option Q;
  offsetY : option Q;
  centerX : option Q;
  centerY : option Q;
  startAngleDeg : option Q;
  initialRotationDeg : option Q;
  initialW : option Q;
  initialH : option Q;
  initialSize : option Q
}.

(** [setState(prev => ...)] during a gesture: the live state changes, the
    history refs do not. *)
Definition setState (ed : Editor) (s : EditorState) : Editor :=
  set_hist ed (History.mk (entries (hist ed)) (cursor (hist ed)) s).

(** ** Rendering: the canvas calls of a render, in order *)

Inductive Format := PNG | JPEG.

Inductive DrawOp :=
  | OpFill (color : string) (x y w h : Q)
  | OpPlaceholder
  | OpCanvasRotate (deg : Q)
  | OpBase (x y w h : Q)
  | OpImage (id : string) (x y w h : Q)
  | OpImageGuide (id : string)
  | OpText (id : string) (cx cy rot : Q) (text : string)
  | OpTextGuide (id : string)
  | OpStrokeDot (id : string) (p : Q * Q) (r : Q)
  | OpStrokePath (id : string) (pts : list (Q * Q)) (width : Q).

(** [off.toDataURL(...)] of an [w] x [h] buffer holding [ops], or [""]. *)
Inductive DataURL :=
  | EmptyURL
  | Encoded (fmt : Format) (w h : Q) (ops : list DrawOp).

Definition text_ids (ops : list DrawOp) : list string :=
  flat_map (fun op => match op with OpText id _ _ _ _ => [id] | _ => [] end) ops.
Definition image_ids (ops : list DrawOp) : list string :=
  flat_map (fun op => match op with OpImage id _ _ _ _ => [id] | _ => [] end) ops.
Definition stroke_ids (ops : list DrawOp) : list string :=
  flat_map (fun op => match op with
                      | OpStrokeDot id _ _ | OpStrokePath id _ _ => [id]
                      | _ => [] end) ops.
(** The points each stroke op draws, with the stroke's id. *)
Definition stroke_draws (ops : list DrawOp) : list (string * list (Q * Q)) :=
  flat_map (fun op => match op with
                      | OpStrokeDot id p _ => [(id, [p])]
                      | OpStrokePath id ps _ => [(id, ps)]
                      | _ => [] end) ops.

Definition has_el (m : list (string * (Q * Q))) (id : string) : bool :=
  match lookup_el m id with Some _ => true | None => false end.

Section Browser.

(** [ctx.measureText(text).width] for a font family and a pixel size. *)
Variable measure_width : string -> Q -> string -> Q.
(** [(Math.cos(-radians(deg)), Math.sin(-radians(deg)))]. *)
Variable trig : Q -> Q * Q.

Definition text_or_space (s : string) : string :=
  if String.eqb s "" then " " else s.

(** [measureText]: [{ w: measured width of (t.text || " "), h: t.size }]. *)
Definition measureText (t : TextItem) : Q * Q :=
  (measure_width (t_font t) (t_size t) (text_or_space (t_text t)), t_size t).

(** *** Preview: [drawBaseCanvas(drawGuides)] *)

Definition preview_image_ops (ed : Editor) (drawGuides : bool) (cw ch : Q)
    (it : ImageItem) : list DrawOp :=
  (if has_el (imageMap ed) (i_id it)
   then [OpImage (i_id it) (i_x it - cw / 2) (i_y it - ch / 2) (i_w it) (i_h it)]
   else [])
  ++ (if drawGuides && sel_is (selectedImageId ed) (i_id it)
      then [OpImageGuide (i_id it)] else []).

Definition preview_text_ops (ed : Editor) (drawGuides : bool) (cw ch : Q)
    (t : TextItem) : list DrawOp :=
  let '(w, h) := measureText t in
  OpText (t_id t) (t_x t - cw / 2 + w / 2) (t_y t - ch / 2 - h / 2)
    (pick (t_rotationDeg t) 0) (text_or_space (t_text t))
  :: (if drawGuides && sel_is (selectedTextId ed) (t_id t)
      then [OpTextGuide (t_id t)] else []).

Definition preview_stroke_ops (cw ch : Q) (s : Stroke) : list DrawOp :=
  let tr := fun p : Q * Q => (fst p - cw / 2, snd p - ch / 2) in
  match s_points s with
  | [] => []   (* a stroke is created with its first point *)
  | [p] => [OpStrokeDot (s_id s) (tr p) (s_size s / 2)]
  | ps => [OpStrokePath (s_id s) (map tr ps) (s_size s)]
  end.

Definition drawBaseCanvas (drawGuides : bool) (ed : Editor) : list DrawOp :=
  if negb (canvasMounted ed) then [] else
  let '(cw, ch) := contentSize ed in
  let s := state ed in
  OpFill "#f8f8f8" 0 0 cw ch ::
  match baseImage ed with
  | None => [OpPlaceholder]
  | Some _ =>
      let '(bw, bh) := contentSize ed in   (* getImageBounds() *)
      [OpCanvasRotate (rotationDeg s);
       OpFill (bgColor s) (- cw / 2) (- ch / 2) cw ch;
       OpBase (0 - cw / 2) (0 - ch / 2) bw bh]
      ++ flat_map (preview_image_ops ed drawGuides cw ch) (images s)
      ++ flat_map (preview_text_ops ed drawGuides cw ch) (texts s)
      ++ flat_map (preview_stroke_ops cw ch) (strokes s)
  end.

(** *** Export: [getDataURL(type)] *)

Definition image_in_frame (w h : Q) (it : ImageItem) : bool :=
  Qle_bool 0 (i_x it) && Qle_bool (i_x it + i_w it) w
  && Qle_bool 0 (i_y it) && Qle_bool (i_y it + i_h it) h.

Definition text_in_frame (w h : Q) (t : TextItem) : bool :=
  let '(tw, th) := measureText t in
  let cx := t_x t + tw / 2 in
  let cy := t_y t - th / 2 in
  Qle_bool 0 (cx - tw / 2) && Qle_bool (cx + tw / 2) w
  && Qle_bool 0 (cy - th / 2) && Qle_bool (cy + th / 2) h.

Definition point_in_frame (w h : Q) (p : Q * Q) : bool :=
  Qle_bool 0 (fst p) && Qle_bool (fst p) w && Qle_bool 0 (snd p) && Qle_bool (snd p) h.

Definition export_image_ops (ed : Editor) (w h : Q) (it : ImageItem) : list DrawOp :=
  if has_el (imageMap ed) (i_id it) && image_in_frame w h it
  then [OpImage (i_id it) (i_x it) (i_y it) (i_w it) (i_h it)] else [].

Definition export_text_ops (w h : Q) (t : TextItem) : list DrawOp :=
  let '(tw, th) := measureText t in
  if text_in_frame w h t
  then [OpText (t_id t) (t_x t + tw / 2) (t_y t - th / 2)
          (pick (t_rotationDeg t) 0) (text_or_space (t_text t))]
  else [].

Definition export_stroke_ops (w h : Q) (s : Stroke) : list DrawOp :=
  match filter (point_in_frame w h) (s_points s) with
  | [] => []
  | [p] => [OpStrokeDot (s_id s) p (s_size s / 2)]
  | ps => [OpStrokePath (s_id s) ps (s_size s)]
  end.

Definition getDataURL (type : Format) (ed : Editor) : DataURL :=
  if negb (canvasMounted ed) then EmptyURL else
  let '(w, h) := contentSize ed in   (* getImageBounds() *)
  let s := state ed in
  Encoded type w h
    ([OpFill (bgColor s) 0 0 w h]
     ++ (match baseImage ed with Some _ => [OpBase 0 0 w h] | None => [] end)
     ++ flat_map (export_image_ops ed w h) (images s)
     ++ flat_map (export_text_ops w h) (texts s)
     ++ flat_map (export_stroke_ops w h) (strokes s)).

(** ** Hit testing: [hitTestTextLocal] and the text loop of [onCanvasPointerDown] *)

(** [Math.hypot(a, b) <= r] for a radius [r >= 0]. *)
Definition hypot_le (a b r : Q) : bool := Qle_bool (a * a + b * b) (r * r).

Record TextHit := mkTextHit {
  within : bool; isOnRotate : bool; isOnResize : bool;
  hcx : Q; hcy : Q; hw : Q; hh : Q; lx : Q; ly : Q
}.

Definition hitTestTextLocal (pt : Q * Q) (t : TextItem) : TextHit :=
  let '(w, h) := measureText t in
  let cx := t_x t + w / 2 in
  let cy := t_y t - h / 2 in
  let '(cos, sin) := trig (pick (t_rotationDeg t) 0) in
  let dx := fst pt - cx in
  let dy := snd pt - cy in
  let lx := dx * cos - dy * sin in
  let ly := dx * sin + dy * cos in
  let within := Qle_bool (- w / 2) lx && Qle_bool lx (w / 2)
                && Qle_bool (- h / 2) ly && Qle_bool ly (h / 2) in
  (* rotateHandle = { x: 0, y: -h / 2 - 16, r: 8 };
     resizeHandle = { x: w / 2, y: h / 2, r: 10 } *)
  let isOnRotate := hypot_le (lx - 0) (ly - (- h / 2 - 16)) 8 in
  let isOnResize := Qle_bool (Qabs (lx - w / 2)) 10 && Qle_bool (Qabs (ly - h / 2)) 10 in
  mkTextHit within isOnRotate isOnResize cx cy w h lx ly.

(** [for (let i = texts.length - 1; i >= 0; i--)]: rotate, then resize,
    then body; the first text with a zone hit ends the loop. *)
Fixpoint scan_texts (pt : Q * Q) (rev_texts : list TextItem)
    : option (Mode * TextItem * TextHit) :=
  match rev_texts with
  | [] => None
  | t :: r =>
      let res := hitTestTextLocal pt t in
      if isOnRotate res then Some (ModeRotate, t, res)
      else if isOnResize res then Some (ModeResize, t, res)
      else if within res then Some (ModeDrag, t, res)
      else scan_texts pt r
  end.

Definition hitText (pt : Q * Q) (ts : list TextItem) : option (Mode * TextItem * TextHit) :=
  scan_texts pt (rev ts).

End Browser.

(** ** Pointer handlers (content-space point, i.e. after [getContentPointFromClient]) *)

Record ImageHit := mkImageHit { ih_id : option string; ih_isOnResize : bool }.

(** [hitTestImage]: topmost (last) image whose box contains the point. *)
Definition hitTestImage (pt : Q * Q) (imgs : list ImageItem) : ImageHit :=
  let fix go (l : list ImageItem) :=
    match l with
    | [] => mkImageHit None false
    | it :: r =>
        let within := Qle_bool (i_x it) (fst pt) && Qle_bool (fst pt) (i_x it + i_w it)
                      && Qle_bool (i_y it) (snd pt) && Qle_bool (snd pt) (i_y it + i_h it) in
        if within then
          let handleSize := 12 in
          let onResize := Qle_bool (Qabs (fst pt - (i_x it + i_w it))) handleSize
                          && Qle_bool (Qabs (snd pt - (i_y it + i_h it))) handleSize in
          mkImageHit (Some (i_id it)) onResize
        else go r
    end in
  go (rev imgs).

Definition no_transform (m : Mode) (id : string) : Transform :=
  mkTransform m id None None None None None None None None None None.

(** JS [a % 360] on a finite number: the remainder has the sign of [a]. *)
Definition js_mod360 (a : Q) : Q :=
  let q := a / 360 in
  let tq := if Qle_bool 0 q then Qfloor q else (- Qfloor (- q))%Z in
  a - 360 * inject_Z tq.

(** A string id in a boolean position: [null] and [""] are falsy. *)
Definition truthy (o : option string) : bool :=
  match o with Some s => negb (String.eqb s "") | None => false end.

Section Pointer.

Variable measure_width : string -> Q -> string -> Q.
Variable trig : Q -> Q * Q.
(** [Math.atan2(dy, dx) * 180 / Math.PI] and [Math.hypot(a, b)]. *)
Variable atan2_deg : Q -> Q -> Q.
Variable hypot : Q -> Q -> Q.

(** [onCanvasPointerDown] (second variant); [fresh] is the [uid()] of a new
    stroke. Returns the editor and [transformRef.current]. *)
Definition onCanvasPointerDown (tool : Tool) (pt : Q * Q) (fresh brushColor : string)
    (brushSize : Q) (ed : Editor) : Editor * option Transform :=
  let s := state ed in
  match tool with
  | ToolImage =>
      let hit := hitTestImage pt (images s) in
      let ed1 := set_selectedImageId ed (ih_id hit) in
      match ih_id hit with
      | None => (ed1, None)
      | Some hid =>
          (* [if (hit.id)] *)
          if negb (truthy (Some hid)) then (ed1, None) else
          match find (fun x => id_is hid (i_id x)) (images s) with
          | None => (ed1, None)
          | Some item =>
              if ih_isOnResize hit then
                (ed1, Some (mkTransform ModeResize (i_id item) (Some TargetImage)
                              None None None None None None
                              (Some (i_w item)) (Some (i_h item)) None))
              else
                (ed1, Some (mkTransform ModeDrag (i_id item) (Some TargetImage)
                              (Some (fst pt - i_x item)) (Some (snd pt - i_y item))
                              None None None None None None None))
          end
      end
  | ToolText =>
      let hit := hitText measure_width trig pt (texts s) in
      let hid := option_map (fun r => t_id (snd (fst r))) hit in
      let ed1 := set_editingTextId (set_selectedTextId ed hid) hid in
      match hit with
      | None => (ed1, None)
      | Some (kind, ht, res) =>
          let t := pick (find (fun x => id_is (t_id ht) (t_id x)) (texts s)) ht in
          match kind with
          | ModeDrag =>
              (ed1, Some (mkTransform ModeDrag (t_id t) None
                            (Some (fst pt - t_x t)) (Some (snd pt - (t_y t - hh res)))
                            None None None None None None None))
          | ModeRotate =>
              (ed1, Some (mkTransform ModeRotate (t_id t) None None None
                            (Some (hcx res)) (Some (hcy res))
                            (Some (atan2_deg (snd pt - hcy res) (fst pt - hcx res)))
                            (Some (pick (t_rotationDeg t) 0)) None None None))
          | ModeResize =>
              (ed1, Some (mkTransform ModeResize (t_id t) None None None None None
                            None None (Some (hw res)) (Some (hh res)) (Some (t_size t))))
          end
      end
  | ToolDraw =>
      (setState ed (set_strokes s (strokes s ++ [mkStroke fresh [pt] brushColor brushSize])),
       None)
  | _ =>
      (set_editingTextId (set_selectedImageId (set_selectedTextId ed None) None) None, None)
  end.

Definition map_image (id : string) (f : ImageItem -> ImageItem) (l : list ImageItem) :=
  map (fun x => if id_is id (i_id x) then f x else x) l.
Definition map_text (id : string) (f : TextItem -> TextItem) (l : list TextItem) :=
  map (fun x => if id_is id (t_id x) then f x else x) l.

(** [onCanvasPointerMove] with an active session [tf] (second variant); the
    draw tool appends to the stroke [drawing]. *)
Definition onCanvasPointerMove (tool : Tool) (tf : option Transform)
    (drawing : option string) (pt : Q * Q) (ed : Editor) : Editor :=
  let s := state ed in
  let '(cw, ch) := contentSize ed in
  match tool with
  | ToolImage =>
      match tf with
      | Some tf =>
        match tf_target tf, tf_mode tf with
        | Some TargetImage, ModeDrag =>
            match find (fun x => id_is (tf_id tf) (i_id x)) (images s) with
            | None => ed
            | Some it =>
                let newX := Math_max 0 (Math_min (cw - i_w it) (fst pt - pick (offsetX tf) 0)) in
                let newY := Math_max 0 (Math_min (ch - i_h it) (snd pt - pick (offsetY tf) 0)) in
                setState ed (set_images s (map_image (tf_id tf)
                  (fun x => mkImage (i_id x) (i_src x) newX newY (i_w x) (i_h x)) (images s)))
            end
        | Some TargetImage, ModeResize =>
            match find (fun x => id_is (tf_id tf) (i_id x)) (images s), initialW tf, initialH tf with
            | Some it, Some startW, Some startH =>
                let dx := Math_max 16 (fst pt - i_x it) in
                let dy := Math_max 16 (snd pt - i_y it) in
                let scale := Math_max (1 # 10) (Math_min 10 (Math_min (dx / startW) (dy / startH))) in
                let newW := Math_max 16 (Math_round (startW * scale)) in
                let newH := Math_max 16 (Math_round (startH * scale)) in
                let clampedW := Math_min newW (cw - i_x it) in
                let clampedH := Math_min newH (ch - i_y it) in
                setState ed (set_images s (map_image (tf_id tf)
                  (fun x => mkImage (i_id x) (i_src x) (i_x x) (i_y x) clampedW clampedH) (images s)))
            | _, _, _ => ed
            end
        | _, _ => ed
        end
      | None => ed
      end
  | ToolText =>
      match tf with
      | None => ed
      | Some tf =>
        match tf_mode tf with
        | ModeDrag =>
            match find (fun x => id_is (tf_id tf) (t_id x)) (texts s) with
            | None => ed
            | Some t =>
                let h := t_size t in
                let newX := Math_max 0 (Math_min cw (fst pt - pick (offsetX tf) 0)) in
                let newY := Math_max h (Math_min ch (snd pt - pick (offsetY tf) 0 + h)) in
                setState ed (set_texts s (map_text (tf_id tf)
                  (fun x => mkText (t_id x) (t_text x) newX newY (t_size x) (t_color x)
                              (t_font x) (t_rotationDeg x)) (texts s)))
            end
        | ModeRotate =>
            match find (fun x => id_is (tf_id tf) (t_id x)) (texts s), centerX tf, centerY tf with
            | Some _, Some ccx, Some ccy =>
                let currentAngleDeg := atan2_deg (snd pt - ccy) (fst pt - ccx) in
                let delta := currentAngleDeg - pick (startAngleDeg tf) 0 in
                let newRot := js_mod360 (pick (initialRotationDeg tf) 0 + delta) in
                setState ed (set_texts s (map_text (tf_id tf)
                  (fun x => mkText (t_id x) (t_text x) (t_x x) (t_y x) (t_size x) (t_color x)
                              (t_font x) (Some newRot)) (texts s)))
            | _, _, _ => ed
            end
        | ModeResize =>
            match find (fun x => id_is (tf_id tf) (t_id x)) (texts s), initialW tf, initialSize tf with
            | Some t, Some iw, Some isz =>
                let h := snd (measureText measure_width t) in
                let scale := Math_max (1 # 5)
                  (Math_min 10 (hypot (fst pt - t_x t) (snd pt - t_y t) / hypot iw h)) in
                let newSize := Math_round (isz * scale) in
                setState ed (set_texts s (map_text (tf_id tf)
                  (fun x => mkText (t_id x) (t_text x) (t_x x) (t_y x)
                              (Math_max 8 (Math_min 256 newSize)) (t_color x)
                              (t_font x) (t_rotationDeg x)) (texts s)))
            | _, _, _ => ed
            end
        end
      end
  | ToolDraw =>
      match drawing with
      | None => ed
      | Some did =>
          setState ed (set_strokes s (map (fun st => if id_is did (s_id st)
            then mkStroke (s_id st) (s_points st ++ [pt]) (s_color st) (s_size st)
            else st) (strokes s)))
      end
  | _ => ed
  end.

End Pointer.

(** [onCanvasPointerUp]: a live session commits the live state once. *)
Definition onCanvasPointerUp (tool : Tool) (sessionActive : bool) (ed : Editor) : Editor :=
  match tool with
  | ToolImage | ToolText | ToolDraw => if sessionActive then push ed (state ed) else ed
  | _ => ed
  end.

(** ** [onAddImages] (second variant): one decoded file of natural size
    [natW] x [natH] with the fresh id [id]. The divisions by [natW] and
    [natH] agree with JS's for a positive natural size, as a decoded raster
    has; a zero natural size would give [Infinity] in the source. *)
Definition newImageItem (cw ch natW natH : Q) (id : string) : ImageItem :=
  let maxW := cw in
  let maxH := ch in
  let scale := Math_min (Math_min (maxW / natW) (maxH / natH)) (1 # 2) in
  let aspect := natW / Math_max 1 natH in
  let w0 := Math_max 32 (Math_min maxW (Math_round (natW * scale))) in
  let h0 := Math_round (w0 / aspect) in
  let '(w, h) :=
    if Qlt_le_dec maxH h0 then
      let h1 := Math_max 32 (Math_min maxH (Math_round maxH)) in
      (Math_round (h1 * aspect), h1)
    else (w0, h0) in
  mkImage id "" (Math_round ((maxW - w) / 2)) (Math_round ((maxH - h) / 2)) w h.

(** The decoded files (a failed decode is [None]), then
    [pushHistory({...state, images: [...state.images, ...newItems]})] and the
    last new item selected. *)
Definition onAddImages (files : list (option (string * (Q * Q)))) (ed : Editor) : Editor :=
  let '(cw, ch) := contentSize ed in
  let loaded := flat_map (fun f => match f with Some d => [d] | None => [] end) files in
  let newItems := map (fun '(id, (nw, nh)) => newImageItem cw ch nw nh id) loaded in
  let ed1 := set_imageMap ed (rev loaded ++ imageMap ed) in
  match rev newItems with
  | [] => ed1
  | last :: _ =>
      let s := state ed in
      set_selectedImageId (push ed1 (set_images s (images s ++ newItems))) (Some (i_id last))
  end.

(** ** Remaining handle operations and input handlers *)

(** [clearStrokes] *)
Definition clearStrokes (ed : Editor) : Editor :=
  push ed (set_strokes (state ed) []).

(** [rotateBy(delta)]: [rotationDeg: (state.rotationDeg + delta) % 360]. *)
Definition rotateBy (delta : Q) (ed : Editor) : Editor :=
  let s := state ed in
  push ed (mkState (js_mod360 (rotationDeg s + delta)) (bgColor s) (texts s)
             (strokes s) (images s)).

(** [reset]: a single default entry; selection and editing cleared (the
    template and [imageMapRef] are untouched). *)
Definition editor_reset (ed : Editor) : Editor :=
  mkEditor (History.reset defaultState) (baseImage ed) None None None
    (imageMap ed) (canvasMounted ed).

(** [loadTemplate(url)] (and the [onload] of [onFileChange]): [Some] of the
    natural size when the image loads, [None] on [img.onerror]. *)
Definition loadTemplate (loaded : option (Q * Q)) (ed : Editor) : Editor :=
  match loaded with
  | None => ed
  | Some nat =>
      editor_reset (mkEditor (hist ed) (Some nat) (selectedTextId ed) (selectedImageId ed)
                      (editingTextId ed) (imageMap ed) (canvasMounted ed))
  end.

(** [onCanvasWheel]: [factor = e.deltaY > 0 ? 0.95 : 1.05]. *)
Definition onCanvasWheel (tool : Tool) (deltaY : Q) (ed : Editor) : Editor :=
  let factor := if Qle_bool deltaY 0 then 21 # 20 else 19 # 20 in
  let text_branch :=
    match tool, selectedTextId ed with
    | ToolText, Some tid =>
        if truthy (Some tid) then
          match find (fun x => id_is tid (t_id x)) (texts (state ed)) with
          | None => ed
          | Some t =>
              let newSize := Math_max 8 (Math_min 256 (Math_round (t_size t * factor))) in
              updateText (t_id t) (mkPatch None None None (Some newSize) None None None) ed
          end
        else ed
    | _, _ => ed
    end in
  match tool, selectedImageId ed with
  | ToolImage, Some iid => if truthy (Some iid) then scaleImage iid factor ed else text_branch
  | _, _ => text_branch
  end.

(** A [KeyboardEvent] as the window listener reads it. *)
Record KeyEvent := mkKey { key : string; ctrlKey : bool; metaKey : bool; shiftKey : bool }.

(** [e.key.toLowerCase() === lower]: the key is the letter in either case. *)
Definition key_lower_is (k lower upper : string) : bool :=
  String.eqb k lower || String.eqb k upper.

(** [s.includes(sub)] *)
Definition includes (s sub : string) : bool :=
  match String.index 0 sub s with Some _ => true | None => false end.

Definition arrow_keys : list string :=
  ["ArrowLeft"%string; "ArrowRight"%string; "ArrowUp"%string; "ArrowDown"%string].

(** The selected-image part of [onKey]; [None] falls through to the text part. *)
Definition onKey_image (e : KeyEvent) (step : Q) (sid : string) (ed : Editor) : option Editor :=
  let '(cw, ch) := contentSize ed in
  let s := state ed in
  match find (fun x => id_is sid (i_id x)) (images s) with
  | None => Some ed
  | Some it =>
      let x1 := if String.eqb (key e) "ArrowLeft" then Math_max 0 (i_x it - step) else i_x it in
      let x2 := if String.eqb (key e) "ArrowRight" then Math_min (cw - i_w it) (x1 + step) else x1 in
      let y1 := if String.eqb (key e) "ArrowUp" then Math_max 0 (i_y it - step) else i_y it in
      let y2 := if String.eqb (key e) "ArrowDown" then Math_min (ch - i_h it) (y1 + step) else y1 in
      if existsb (String.eqb (key e)) arrow_keys then
        Some (push ed (set_images s (map (fun img => if id_is (i_id it) (i_id img)
                 then mkImage (i_id img) (i_src img) x2 y2 (i_w img) (i_h img)
                 else img) (images s))))
      else if String.eqb (key e) "Delete" || String.eqb (key e) "Backspace" then
        Some (removeImage (i_id it) ed)
      else None
  end.

(** The selected-text part of [onKey]. *)
Definition onKey_text (e : KeyEvent) (step : Q) (tid : string) (ed : Editor) : Editor :=
  let '(cw, ch) := contentSize ed in
  let s := state ed in
  match find (fun x => id_is tid (t_id x)) (texts s) with
  | None => ed
  | Some t =>
      let h := t_size t in
      let x1 := if String.eqb (key e) "ArrowLeft" then Math_max 0 (t_x t - step) else t_x t in
      let x2 := if String.eqb (key e) "ArrowRight" then Math_min cw (x1 + step) else x1 in
      let y1 := if String.eqb (key e) "ArrowUp" then Math_max h (t_y t - step) else t_y t in
      let y2 := if String.eqb (key e) "ArrowDown" then Math_min ch (y1 + step) else y1 in
      if existsb (includes (key e)) arrow_keys then
        push ed (set_texts s (map (fun txt => if id_is (t_id t) (t_id txt)
                 then mkText (t_id txt) (t_text txt) x2 y2 (t_size txt) (t_color txt)
                        (t_font txt) (t_rotationDeg txt)
                 else txt) (texts s)))
      else if String.eqb (key e) "Delete"
              || (String.eqb (key e) "Backspace" && negb (truthy (editingTextId ed))) then
        removeText (t_id t) ed
      else ed
  end.

(** The [keydown] listener [onKey] (the [image] state is the template). *)
Definition onKey (e : KeyEvent) (ed : Editor) : Editor :=
  match baseImage ed with
  | None => ed
  | Some _ =>
      if (ctrlKey e || metaKey e) && key_lower_is (key e) "z" "Z" then
        (if shiftKey e then editor_redo ed else editor_undo ed)
      else if (ctrlKey e || metaKey e) && key_lower_is (key e) "y" "Y" then editor_redo ed
      else if String.eqb (key e) "Escape" then
        set_editingTextId (set_selectedImageId (set_selectedTextId ed None) None) None
      else
        let step := if shiftKey e then 10 else 1 in
        let text_part :=
          match selectedTextId ed with
          | Some tid => if truthy (Some tid) then onKey_text e step tid ed else ed
          | None => ed
          end in
        match selectedImageId ed with
        | Some sid =>
            if truthy (Some sid) then
              match onKey_image e step sid ed with Some ed' => ed' | None => text_part end
            else text_part
        | None => text_part
        end
  end.

(** ** Screen mapping: [getContentPointFromClient] and [getTextInputPosition] *)

(** [canvas.getBoundingClientRect()]: left, top, width, height. *)
Record Rect := mkRect { r_left : Q; r_top : Q; r_width : Q; r_height : Q }.

Section Screen.

Variable measure_width : string -> Q -> string -> Q.
(** [(Math.cos(-radians(deg)), Math.sin(-radians(deg)))], as in [Browser];
    [Math.cos(radians(a))] is then [fst (trig (- a))]. *)
Variable trig : Q -> Q * Q.

(** [getContentPointFromClient(clientX, clientY)]: [None] for [null] when
    the canvas is not mounted. *)
Definition getContentPointFromClient (rect : Rect) (clientX clientY : Q) (ed : Editor)
    : option (Q * Q) :=
  if negb (canvasMounted ed) then None else
  let '(cw, ch) := contentSize ed in
  let scaleX := cw / r_width rect in
  let scaleY := ch / r_height rect in
  let px := (clientX - r_left rect) * scaleX in
  let py := (clientY - r_top rect) * scaleY in
  let centerX := cw / 2 in
  let centerY := ch / 2 in
  let dx := px - centerX in
  let dy := py - centerY in
  let '(cos, sin) := trig (rotationDeg (state ed)) in
  let rx := dx * cos - dy * sin in
  let ry := dx * sin + dy * cos in
  Some (rx + cw / 2, ry + ch / 2).

(** [getTextInputPosition(text)]: [(left, top)] of the inline editor. *)
Definition getTextInputPosition (rect : Rect) (text : TextItem) (ed : Editor) : Q * Q :=
  if negb (canvasMounted ed) then (0, 0) else
  let '(cw, ch) := contentSize ed in
  let '(w, h) := measureText measure_width text in
  let '(cos, sin) := trig (- (rotationDeg (state ed) + pick (t_rotationDeg text) 0)) in
  let cx := t_x text + w / 2 in
  let cy := t_y text - h / 2 in
  let canvasCenterX := cw / 2 in
  let canvasCenterY := ch / 2 in
  let dx := cx - canvasCenterX in
  let dy := cy - canvasCenterY in
  let screenX := dx * cos - dy * sin + canvasCenterX in
  let screenY := dx * sin + dy * cos + canvasCenterY in
  let scaleX := r_width rect / cw in
  let scaleY := r_height rect / ch in
  (r_left rect + screenX * scaleX - (w * scaleX) / 2,
   r_top rect + screenY * scaleY - (h * scaleY) / 2).

End Screen.

(** ** Render-time [canUndo] / [canRedo]

    [canUndo] and [canRedo] are computed while the component renders, and
    [undo] / [redo] are [useCallback] closures over them; the closures the
    user reaches (the imperative handle, the key listener) are the ones of
    the last committed render. A [setState] call commits a render only when
    its value is not [Object.is]-equal to the current state; objects are
    compared by reference, modelled by an allocation tag. [History] above
    tests the flags on the live refs; this model keeps the rendered ones. *)
Module Render.

(** A JS object reference: allocation tag and contents. *)
Record Obj := mkObj { tag : nat; val : EditorState }.

Record Comp := mkComp {
  historyRef : list Obj;     (* historyRef.current *)
  historyIndexRef : Z;       (* historyIndexRef.current *)
  rstate : option Obj;       (* the React [state]; [None] is [undefined] *)
  stateRef : Obj;            (* stateRef.current, set by the effect after a render *)
  canUndoR : bool;           (* [canUndo] captured by the current [undo] closure *)
  canRedoR : bool;           (* [canRedo] captured by the current [redo] closure *)
  drawingRef : option string;
  nextTag : nat              (* the next fresh object *)
}.

(** [Object.is] on the state values. *)
Definition same (a b : option Obj) : bool :=
  match a, b with
  | Some x, Some y => Nat.eqb (tag x) (tag y)
  | None, None => true
  | _, _ => false
  end.

(** [historyRef.current[i]]: [undefined] out of range. *)
Definition at_index (l : list Obj) (i : Z) : option Obj :=
  if (i <? 0)%Z then None else nth_error l (Z.to_nat i).

(** [arr.slice(0, k)]. *)
Definition slice0 (l : list Obj) (k : Z) : list Obj :=
  if (k <? 0)%Z then firstn (Z.to_nat (Z.of_nat (length l) + k)) l
  else firstn (Z.to_nat k) l.

(** A committed render of state [o]: the flags are recomputed from the refs
    and the effect sets [stateRef.current = state]. *)
Definition render (o : Obj) (c : Comp) : Comp :=
  mkComp (historyRef c) (historyIndexRef c) (Some o) o
    (0 <? historyIndexRef c)%Z
    (historyIndexRef c <? Z.of_nat (length (historyRef c)) - 1)%Z
    (drawingRef c) (nextTag c).

(** [setState(v)]: no render when [Object.is(v, state)]; a render of
    [undefined] throws on [state.texts], so nothing past the state is
    updated then. *)
Definition setState (v : option Obj) (c : Comp) : Comp :=
  if same v (rstate c) then c else
  match v with
  | Some o => render o c
  | None => mkComp (historyRef c) (historyIndexRef c) None (stateRef c)
              (canUndoR c) (canRedoR c) (drawingRef c) (nextTag c)
  end.

Definition set_index (i : Z) (c : Comp) : Comp :=
  mkComp (historyRef c) i (rstate c) (stateRef c) (canUndoR c) (canRedoR c)
    (drawingRef c) (nextTag c).

Definition set_drawing (d : option string) (c : Comp) : Comp :=
  mkComp (historyRef c) (historyIndexRef c) (rstate c) (stateRef c) (canUndoR c)
    (canRedoR c) d (nextTag c).

(** A fresh object [{ ... }] with contents [s]. *)
Definition alloc (s : EditorState) (c : Comp) : Obj * Comp :=
  (mkObj (nextTag c) s,
   mkComp (historyRef c) (historyIndexRef c) (rstate c) (stateRef c) (canUndoR c)
     (canRedoR c) (drawingRef c) (S (nextTag c))).

(** [pushHistory(next)] *)
Definition pushHistory (next : Obj) (c : Comp) : Comp :=
  let h := slice0 (historyRef c) (historyIndexRef c + 1) ++ [next] in
  setState (Some next)
    (mkComp h (Z.of_nat (length h) - 1) (rstate c) (stateRef c) (canUndoR c)
       (canRedoR c) (drawingRef c) (nextTag c)).

(** [undo]: [if (!canUndo) return; index -= 1; setState(historyRef.current[index])] *)
Definition undo (c : Comp) : Comp :=
  if negb (canUndoR c) then c else
  let i := (historyIndexRef c - 1)%Z in
  setState (at_index (historyRef c) i) (set_index i c).

(** [redo]: [if (!canRedo) return; index += 1; setState(historyRef.current[index])] *)
Definition redo (c : Comp) : Comp :=
  if negb (canRedoR c) then c else
  let i := (historyIndexRef c + 1)%Z in
  setState (at_index (historyRef c) i) (set_index i c).

(** [clearStrokes]: [pushHistory({ ...state, strokes: [] })] with the state
    of the last render (a render with [undefined] has thrown). *)
Definition clearStrokes (c : Comp) : Comp :=
  match rstate c with
  | None => c
  | Some o => let '(n, c1) := alloc (set_strokes (val o) []) c in pushHistory n c1
  end.

(** [onCanvasPointerDown] with the draw tool at [pt]: a new stroke through
    [setState(prev => ({ ...prev, strokes: [...prev.strokes, stroke] }))],
    then [drawingRef.current = { id }]. *)
Definition pointerDownDraw (id : string) (pt : Q * Q) (color : string) (size : Q)
    (c : Comp) : Comp :=
  match rstate c with
  | None => c
  | Some o =>
      let '(n, c1) := alloc (set_strokes (val o)
                               (strokes (val o) ++ [mkStroke id [pt] color size])) c in
      set_drawing (Some id) (setState (Some n) c1)
  end.

(** [onCanvasPointerUp] with the draw tool: when a stroke is in progress,
    [drawingRef.current = null; pushHistory(stateRef.current)]. *)
Definition pointerUpDraw (c : Comp) : Comp :=
  match drawingRef c with
  | None => c
  | Some _ => pushHistory (stateRef c) (set_drawing None c)
  end.

(** The mounted component: [historyRef = [defaultState]], index 0, first
    render. *)
Definition init : Comp :=
  let d := mkObj 0 defaultState in
  mkComp [d] 0 (Some d) d false false None 1.

End Render.

(** ** Predicates and sample editors used by the properties *)

Definition wheel_ed : Editor :=
  mkEditor (History.reset (set_texts defaultState [mkText "t" "hi" 10 50 40 "#000" "Impact" None]))
    (Some (800, 600)) (Some "t"%string) None None [] true.

(** [r] is the remainder of [a] by 360 with the sign of [a], as [a % 360]. *)
Definition rem360_of (a r : Q) : Prop :=
  (exists k : Z, r == a - 360 * inject_Z k) /\ (0 <= a -> 0 <= r < 360) /\ (a < 0 -> -360 < r <= 0).

Definition grab_ed : Editor :=
  mkEditor (History.reset (set_images defaultState [mkImage "a" "" 0 0 100 100])) (Some (800, 600)) None None None [] true.

(** The box test of [hitTestImage], edges included. *)
Definition in_box (pt : Q * Q) (it : ImageItem) : Prop :=
  i_x it <= fst pt <= i_x it + i_w it /\ i_y it <= snd pt <= i_y it + i_h it.

(** * Properties *)

(** [lra] on goals with divisions by positive integer constants. *)
Ltac qlra :=
  unfold Qdiv in *;
  repeat match goal with
         | |- context [Qinv (Qmake (Zpos ?p) 1)] =>
             change (Qinv (Qmake (Zpos p) 1)) with (Qmake 1 p)
         | H : context [Qinv (Qmake (Zpos ?p) 1)] |- _ =>
             change (Qinv (Qmake (Zpos p) 1)) with (Qmake 1 p) in H
         end;
  lra.

(** ** History: the render-time checks *)

(** C1 (code bug): [undo] and [redo] test the [canUndo] / [canRedo] of the
    last committed render, and [onCanvasPointerUp] runs
    [pushHistory(stateRef.current)] with the object already in [state],
    which commits no render. After one stroke on a fresh editor the history
    holds two entries with the cursor on the second, yet [undo] does
    nothing. After [clearStrokes], [undo] and one stroke, the cursor is on
    the last of two entries, yet [redo] moves it past the end and sets the
    state to [undefined]. *)
Theorem history_checks_stale :
  let c1 := Render.pointerUpDraw
              (Render.pointerDownDraw "s1" (10, 10) "#000000" 4 Render.init) in
  let c2 := Render.pointerUpDraw
              (Render.pointerDownDraw "s2" (10, 10) "#000000" 4
                 (Render.undo (Render.clearStrokes Render.init))) in
  (length (Render.historyRef c1) = 2%nat /\ Render.historyIndexRef c1 = 1%Z
   /\ Render.undo c1 = c1)
  /\ (length (Render.historyRef c2) = 2%nat /\ Render.historyIndexRef c2 = 1%Z
      /\ Render.historyIndexRef (Render.redo c2) = 2%Z
      /\ Render.rstate (Render.redo c2) = None).
Proof. vm_compute. repeat split; reflexivity. Qed.

(** ** Lookups by id *)

Lemma id_is_absent {X} (f : X -> string) (id : string) (l : list X) :
  ~ In id (map f l) -> forall x, In x l -> id_is id (f x) = false.
Proof.
  intros Hn x Hx. unfold id_is. apply String.eqb_neq. intros E.
  apply Hn. rewrite <- E. apply in_map. exact Hx.
Qed.

Lemma find_absent {X} (p : X -> bool) (l : list X) :
  (forall x, In x l -> p x = false) -> find p l = None.
Proof.
  induction l as [|a l IH]; intros H; cbn; [reflexivity|].
  rewrite (H a (or_introl eq_refl)). apply IH. intros x Hx. apply H. right. exact Hx.
Qed.

Lemma findIndex_absent {X} (p : X -> bool) (l : list X) :
  (forall x, In x l -> p x = false) -> findIndex p l = None.
Proof.
  induction l as [|a l IH]; intros H; cbn; [reflexivity|].
  rewrite (H a (or_introl eq_refl)), IH; [reflexivity|].
  intros x Hx. apply H. right. exact Hx.
Qed.

Lemma findIndex_at {X} (p : X -> bool) (pre post : list X) (it : X) :
  (forall x, In x pre -> p x = false) -> p it = true ->
  findIndex p (pre ++ it :: post) = Some (length pre).
Proof.
  induction pre as [|a pre IH]; intros H Hit; cbn.
  - rewrite Hit. reflexivity.
  - rewrite (H a (or_introl eq_refl)), IH; [reflexivity| |exact Hit].
    intros x Hx. apply H. right. exact Hx.
Qed.

Lemma map_if_absent {X} (p : X -> bool) (f : X -> X) (l : list X) :
  (forall x, In x l -> p x = false) -> map (fun x => if p x then f x else x) l = l.
Proof.
  induction l as [|a l IH]; intros H; cbn; [reflexivity|].
  rewrite (H a (or_introl eq_refl)), IH; [reflexivity|].
  intros x Hx. apply H. right. exact Hx.
Qed.

Lemma filter_negb_absent {X} (p : X -> bool) (l : list X) :
  (forall x, In x l -> p x = false) -> filter (fun x => negb (p x)) l = l.
Proof.
  induction l as [|a l IH]; intros H; cbn; [reflexivity|].
  rewrite (H a (or_introl eq_refl)), IH; [reflexivity|].
  intros x Hx. apply H. right. exact Hx.
Qed.

Lemma remove_at_middle {X} (pre post : list X) (it : X) :
  remove_at (length pre) (pre ++ it :: post) = pre ++ post.
Proof.
  unfold remove_at. rewrite firstn_app, Nat.sub_diag, firstn_all, app_nil_r.
  f_equal. replace (S (length pre)) with (length pre + 1)%nat by lia.
  rewrite skipn_app, skipn_all2 by lia. cbn.
  replace (length pre + 1 - length pre)%nat with 1%nat by lia. reflexivity.
Qed.

Lemma nth_error_middle {X} (pre post : list X) (it : X) :
  nth_error (pre ++ it :: post) (length pre) = Some it.
Proof. rewrite nth_error_app2, Nat.sub_diag by lia. reflexivity. Qed.

(** ** Z-order of overlay images *)

Definition img (id : string) (x : Q) : ImageItem := mkImage id "" x 0 100 100.

Definition editor_with (s : EditorState) : Editor :=
  mkEditor (History.reset s) (Some (800, 600)) None None None [] true.

(** C3 (as stated, refuted): bringing forward the back image of three moves
    it to the front, not one step up: the result is [B; C; A], not the
    adjacent swap [B; A; C]. *)
Lemma bringForward_not_adjacent_swap :
  let s := set_images defaultState [img "A" 0; img "B" 10; img "C" 20] in
  images (state (bringForwardImage "A" (editor_with s))) = [img "B" 10; img "C" 20; img "A" 0]
  /\ images (state (bringForwardImage "A" (editor_with s)))
     <> [img "B" 10; img "A" 0; img "C" 20].
Proof. cbn. split; [reflexivity|]. discriminate. Qed.

(** C3 (amended): [bringForwardImage] on the topmost image and
    [sendBackwardImage] on the bottommost image (or on an absent id) leave
    the editor unchanged, history included; otherwise [bringForwardImage]
    moves the image to the end of the sequence (frontmost) and
    [sendBackwardImage] moves it to the start (backmost), the other images
    keeping their relative order, with one history entry pushed. *)
Theorem zorder_moves_to_end (ed : Editor) :
  (forall id, ~ In id (map i_id (images (state ed))) ->
     bringForwardImage id ed = ed /\ sendBackwardImage id ed = ed)
  /\ (forall (id : string) (pre post : list ImageItem) (it : ImageItem),
        images (state ed) = pre ++ it :: post ->
        ~ In id (map i_id pre) -> i_id it = id ->
        bringForwardImage id ed =
          (match post with
           | [] => ed
           | _ => push ed (set_images (state ed) (pre ++ post ++ [it]))
           end)
        /\ sendBackwardImage id ed =
          (match pre with
           | [] => ed
           | _ => push ed (set_images (state ed) (it :: pre ++ post))
           end)).
Proof.
  split.
  { intros id Habs.
    assert (Hf : findIndex (fun i => id_is id (i_id i)) (images (state ed)) = None).
    { apply findIndex_absent, id_is_absent. exact Habs. }
    unfold bringForwardImage, sendBackwardImage. rewrite Hf. split; reflexivity. }
  intros id pre post it Himgs Hpre Hit.
  assert (Hf : findIndex (fun i => id_is id (i_id i)) (images (state ed)) = Some (length pre)).
  { rewrite Himgs. apply findIndex_at.
    - apply id_is_absent. exact Hpre.
    - unfold id_is. rewrite Hit. apply String.eqb_refl. }
  unfold bringForwardImage, sendBackwardImage. rewrite Hf. split.
  - rewrite Himgs, length_app. cbn [Datatypes.length].
    destruct post as [|q post'].
    + destruct (Nat.eqb _ _) eqn:E; [reflexivity|].
      apply Nat.eqb_neq in E. cbn in E. lia.
    + destruct (Nat.eqb _ _) eqn:E.
      { apply Nat.eqb_eq in E. cbn in E. lia. }
      rewrite nth_error_middle, remove_at_middle, <- app_assoc. reflexivity.
  - destruct pre as [|a pre'].
    + reflexivity.
    + change (length (a :: pre')) with (S (length pre')).
      rewrite Himgs.
      change (S (length pre')) with (length (a :: pre')).
      rewrite nth_error_middle, remove_at_middle. reflexivity.
Qed.

Lemma zorder_moves_to_end_witness :
  let s := set_images defaultState [img "A" 0; img "B" 10; img "C" 20] in
  ~ In "Z"%string (map i_id (images (state (editor_with s))))
  /\ bringForwardImage "Z" (editor_with s) = editor_with s
  /\ sendBackwardImage "Z" (editor_with s) = editor_with s
  /\ images (state (editor_with s)) = [img "A" 0] ++ img "B" 10 :: [img "C" 20]
  /\ bringForwardImage "B" (editor_with s)
     = push (editor_with s) (set_images s ([img "A" 0] ++ [img "C" 20] ++ [img "B" 10])).
Proof.
  intros s.
  assert (Habs : ~ In "Z"%string (map i_id (images (state (editor_with s))))).
  { cbn. intros [H|[H|[H|[]]]]; discriminate H. }
  destruct (proj1 (zorder_moves_to_end (editor_with s)) "Z"%string Habs) as [B1 S1].
  split; [exact Habs|]. split; [exact B1|]. split; [exact S1|].
  split; [reflexivity|].
  exact (proj1 (proj2 (zorder_moves_to_end (editor_with s)) "B"%string [img "A" 0] [img "C" 20]
                  (img "B" 10) eq_refl ltac:(cbn; intros [H|[]]; discriminate H) eq_refl)).
Defined.

(** ** Operations on ids absent from the current snapshot *)

Definition layers (s : EditorState) := (texts s, strokes s, images s).

Lemma state_push (ed : Editor) (s : EditorState) : state (push ed s) = s.
Proof. reflexivity. Qed.

Definition text_patch (txt : string) : TextPatch :=
  mkPatch (Some txt) None None None None None None.

Definition textA : TextItem := mkText "a" "" 200 150 20 "#000" "Fredoka One" (Some 0).

(** The editor after committing a text and undoing it: the redo entry is
    pending. *)
Definition ed_with_redo : Editor :=
  editor_undo (push (editor_with defaultState) (set_texts defaultState [textA])).

(** C6 (code bug): [updateText] with an id that is in no text leaves the
    texts as they were, but still pushes a history entry (dropping the
    pending redo entry) and selects the unknown id. *)
Lemma updateText_unknown_id_not_noop :
  let ed' := updateText "ghost" (text_patch "GM") ed_with_redo in
  texts (state ed') = texts (state ed_with_redo)
  /\ entries (hist ed_with_redo) = [defaultState; set_texts defaultState [textA]]
  /\ canRedo (hist ed_with_redo) = true
  /\ entries (hist ed') = [defaultState; set_texts defaultState []]
  /\ canRedo (hist ed') = false
  /\ state (editor_redo ed_with_redo) = set_texts defaultState [textA]
  /\ state (editor_redo ed') = set_texts defaultState []
  /\ selectedTextId ed_with_redo = None
  /\ selectedTextId ed' = Some "ghost"%string.
Proof. cbn. repeat split. Qed.

(** C10: [undo]/[redo] change only the history part of the editor, never
    the selection ids; when the selected text (image) id is in no text
    (image) of the current snapshot, [getSelectedText] ([getSelectedImage])
    gives [null], and every id-based mutator aimed at that id leaves the
    texts, strokes and images of the snapshot as they were. *)
Theorem selection_independent_of_history (ed : Editor) (id : string)
    (Ht : ~ In id (map t_id (texts (state ed))))
    (Hi : ~ In id (map i_id (images (state ed)))) :
  (selectedTextId (editor_undo ed) = selectedTextId ed
   /\ selectedImageId (editor_undo ed) = selectedImageId ed
   /\ editingTextId (editor_undo ed) = editingTextId ed
   /\ selectedTextId (editor_redo ed) = selectedTextId ed
   /\ selectedImageId (editor_redo ed) = selectedImageId ed
   /\ editingTextId (editor_redo ed) = editingTextId ed)
  /\ (selectedTextId ed = Some id -> getSelectedText ed = None)
  /\ (selectedImageId ed = Some id -> getSelectedImage ed = None)
  /\ (forall p, layers (state (updateText id p ed)) = layers (state ed))
  /\ layers (state (removeText id ed)) = layers (state ed)
  /\ layers (state (removeImage id ed)) = layers (state ed)
  /\ (forall f, scaleImage id f ed = ed)
  /\ bringForwardImage id ed = ed
  /\ sendBackwardImage id ed = ed
  /\ resetImageSize id ed = ed.
Proof.
  pose proof (id_is_absent t_id id _ Ht) as At.
  pose proof (id_is_absent i_id id _ Hi) as Ai.
  split; [repeat split; reflexivity|].
  split.
  { intros Hs. unfold getSelectedText. rewrite Hs. apply find_absent. exact At. }
  split.
  { intros Hs. unfold getSelectedImage. rewrite Hs. apply find_absent. exact Ai. }
  split.
  { intros p. unfold updateText. cbn -[map].
    rewrite (map_if_absent (fun t => id_is id (t_id t))) by exact At. reflexivity. }
  split.
  { unfold removeText. destruct (sel_is _ _); cbn -[filter];
      rewrite (filter_negb_absent (fun t => id_is id (t_id t))) by exact At; reflexivity. }
  split.
  { unfold removeImage. destruct (sel_is _ _); cbn -[filter];
      rewrite (filter_negb_absent (fun i => id_is id (i_id i))) by exact Ai; reflexivity. }
  split.
  { intros f. unfold scaleImage. rewrite find_absent by exact Ai. reflexivity. }
  split.
  { unfold bringForwardImage. rewrite findIndex_absent by exact Ai. reflexivity. }
  split.
  { unfold sendBackwardImage. rewrite findIndex_absent by exact Ai. reflexivity. }
  unfold resetImageSize. rewrite find_absent by exact Ai. reflexivity.
Qed.

(** A text committed, selected and then undone: its id stays selected. *)
Definition ed_undone_text : Editor :=
  editor_undo (addText "a" (editor_with defaultState)).

Lemma selection_independent_of_history_witness :
  selectedTextId ed_undone_text = Some "a"%string
  /\ getSelectedText ed_undone_text = None.
Proof.
  split; [reflexivity|].
  refine (proj1 (proj2 (selection_independent_of_history ed_undone_text "a" _ _)) eq_refl).
  - cbn. tauto.
  - cbn. tauto.
Defined.

(** ** Export and preview *)

Definition url_ops (u : DataURL) : list DrawOp :=
  match u with EmptyURL => [] | Encoded _ _ _ ops => ops end.

Lemma flat_map_flat_map' {X Y Z} (f : X -> list Y) (g : Y -> list Z) (l : list X) :
  flat_map g (flat_map f l) = flat_map (fun x => flat_map g (f x)) l.
Proof.
  induction l as [|a l IH]; cbn; [reflexivity|]. rewrite flat_map_app, IH. reflexivity.
Qed.

Lemma flat_map_filter {X Y} (p : X -> bool) (f : X -> Y) (l : list X) :
  flat_map (fun x => if p x then [f x] else []) l = map f (filter p l).
Proof.
  induction l as [|a l IH]; cbn; [reflexivity|]. destruct (p a); cbn; rewrite IH; reflexivity.
Qed.

Lemma ids_nil {X Y Z} (f : X -> list Y) (g : Y -> list Z) (l : list X) :
  (forall x, flat_map g (f x) = []) -> flat_map g (flat_map f l) = [].
Proof.
  intros H. induction l as [|a l IH]; cbn; [reflexivity|]. rewrite flat_map_app, H, IH. reflexivity.
Qed.

Lemma ids_filter {X Y Z} (f : X -> list Y) (g : Y -> list Z) (p : X -> bool) (k : X -> Z)
    (l : list X) :
  (forall x, flat_map g (f x) = if p x then [k x] else []) ->
  flat_map g (flat_map f l) = map k (filter p l).
Proof.
  intros H. induction l as [|a l IH]; cbn; [reflexivity|].
  rewrite flat_map_app, H, IH. destruct (p a); reflexivity.
Qed.

Lemma ids_map {X Y Z} (f : X -> list Y) (g : Y -> list Z) (k : X -> Z) (l : list X) :
  (forall x, flat_map g (f x) = [k x]) -> flat_map g (flat_map f l) = map k l.
Proof.
  intros H. induction l as [|a l IH]; cbn; [reflexivity|]. rewrite flat_map_app, H, IH. reflexivity.
Qed.

Lemma existsb_filter {X} (p : X -> bool) (l : list X) :
  existsb p l = match filter p l with [] => false | _ => true end.
Proof.
  induction l as [|a l IH]; cbn; [reflexivity|]. destruct (p a); cbn; [reflexivity|exact IH].
Qed.

Section ExportBounds.
Variable mw : string -> Q -> string -> Q.

Lemma text_ids_export_text (w h : Q) (t : TextItem) :
  text_ids (export_text_ops mw w h t) = if text_in_frame mw w h t then [t_id t] else [].
Proof.
  unfold export_text_ops. destruct (measureText mw t). destruct (text_in_frame mw w h t); reflexivity.
Qed.

Lemma export_layer_ids (ed : Editor) (w h : Q) :
  let s := state ed in
  (text_ids (flat_map (export_image_ops ed w h) (images s)) = []
   /\ text_ids (flat_map (export_text_ops mw w h) (texts s))
      = map t_id (filter (text_in_frame mw w h) (texts s))
   /\ text_ids (flat_map (export_stroke_ops w h) (strokes s)) = [])
  /\ (image_ids (flat_map (export_image_ops ed w h) (images s))
      = map i_id (filter (fun it => has_el (imageMap ed) (i_id it) && image_in_frame w h it) (images s))
   /\ image_ids (flat_map (export_text_ops mw w h) (texts s)) = []
   /\ image_ids (flat_map (export_stroke_ops w h) (strokes s)) = [])
  /\ (stroke_ids (flat_map (export_image_ops ed w h) (images s)) = []
   /\ stroke_ids (flat_map (export_text_ops mw w h) (texts s)) = []
   /\ stroke_ids (flat_map (export_stroke_ops w h) (strokes s))
      = map s_id (filter (fun st => existsb (point_in_frame w h) (s_points st)) (strokes s))).
Proof.
  intros s. unfold text_ids, image_ids, stroke_ids. repeat split.
  all: first [ apply ids_nil | eapply ids_filter ]; intros x.
  all: try (unfold export_image_ops; destruct (_ && _); reflexivity).
  all: try (unfold export_text_ops; destruct (measureText mw x);
            destruct (text_in_frame _ _ _ _); reflexivity).
  all: unfold export_stroke_ops; rewrite ?existsb_filter.
  all: destruct (filter (point_in_frame w h) (s_points x)) as [|a [|b r]]; reflexivity.
Qed.

Lemma export_stroke_draws (ed : Editor) (w h : Q) :
  let s := state ed in
  stroke_draws (flat_map (export_image_ops ed w h) (images s)) = []
  /\ stroke_draws (flat_map (export_text_ops mw w h) (texts s)) = []
  /\ stroke_draws (flat_map (export_stroke_ops w h) (strokes s))
     = map (fun st => (s_id st, filter (point_in_frame w h) (s_points st)))
           (filter (fun st => existsb (point_in_frame w h) (s_points st)) (strokes s)).
Proof.
  intros s. unfold stroke_draws. repeat split.
  all: first [ apply ids_nil | eapply ids_filter ]; intros x.
  all: try (unfold export_image_ops; destruct (_ && _); reflexivity).
  all: try (unfold export_text_ops; destruct (measureText mw x);
            destruct (text_in_frame _ _ _ _); reflexivity).
  unfold export_stroke_ops. rewrite existsb_filter.
  destruct (filter (point_in_frame w h) (s_points x)) as [|a [|b r]]; reflexivity.
Qed.

End ExportBounds.

Definition has_points (st : Stroke) : bool :=
  match s_points st with [] => false | _ => true end.

Section PreviewLayers.
Variable mw : string -> Q -> string -> Q.

Lemma preview_layer_ids (ed : Editor) (g : bool) (cw ch : Q) :
  let s := state ed in
  (text_ids (flat_map (preview_image_ops ed g cw ch) (images s)) = []
   /\ text_ids (flat_map (preview_text_ops mw ed g cw ch) (texts s)) = map t_id (texts s)
   /\ text_ids (flat_map (preview_stroke_ops cw ch) (strokes s)) = [])
  /\ (image_ids (flat_map (preview_image_ops ed g cw ch) (images s))
      = map i_id (filter (fun it => has_el (imageMap ed) (i_id it)) (images s))
   /\ image_ids (flat_map (preview_text_ops mw ed g cw ch) (texts s)) = []
   /\ image_ids (flat_map (preview_stroke_ops cw ch) (strokes s)) = [])
  /\ (stroke_ids (flat_map (preview_image_ops ed g cw ch) (images s)) = []
   /\ stroke_ids (flat_map (preview_text_ops mw ed g cw ch) (texts s)) = []
   /\ stroke_ids (flat_map (preview_stroke_ops cw ch) (strokes s))
      = map s_id (filter has_points (strokes s))).
Proof.
  intros s. unfold text_ids, image_ids, stroke_ids. repeat split.
  all: first [ apply ids_nil | eapply ids_filter | eapply ids_map ]; intros x.
  all: try (unfold preview_image_ops; destruct (has_el _ _), (_ && _); reflexivity).
  all: try (unfold preview_text_ops; destruct (measureText mw x); destruct (_ && _); reflexivity).
  all: unfold preview_stroke_ops, has_points;
       destruct (s_points x) as [|a [|b r]]; reflexivity.
Qed.

End PreviewLayers.

(** C2 (as stated, refuted): strokes are not dropped by extent. A stroke
    from (10, 10) to (5000, 10) in an 800 x 600 frame reaches outside the
    frame, yet the export draws it (reduced to its in-frame point). *)
Lemma export_keeps_partly_outside_stroke :
  let st := mkStroke "s" [(10, 10); (5000, 10)] "#111111" 6 in
  let ed := editor_with (set_strokes defaultState [st]) in
  point_in_frame 800 600 (5000, 10) = false
  /\ url_ops (getDataURL (fun _ _ _ => 0) PNG ed)
     = [OpFill "#ffffff" 0 0 800 600; OpBase 0 0 800 600; OpStrokeDot "s" (10, 10) (6 / 2)]
  /\ stroke_ids (url_ops (getDataURL (fun _ _ _ => 0) PNG ed)) = ["s"%string].
Proof. repeat split; vm_compute; reflexivity. Qed.

(** C2 (amended): with a template loaded, the export buffer is the content
    frame; it draws exactly the text layers whose measured box lies in the
    frame and the overlay images (with a decoded element) whose box lies in
    the frame, while the live preview draws every text and every decoded
    overlay image regardless of bounds. Strokes are not dropped by extent:
    the export draws, in order, one stroke op for every stroke with at
    least one point in the frame, and that op draws exactly the stroke's
    in-frame points. A text at [x = contentWidth - 1]
    with measured width above 1 is left out of the export. *)
Theorem export_omits_out_of_frame_layers (mw : string -> Q -> string -> Q) (fmt : Format)
    (ed : Editor) (Hm : canvasMounted ed = true) (Hb : baseImage ed <> None) :
  let cw := fst (contentSize ed) in
  let ch := snd (contentSize ed) in
  let s := state ed in
  let ex := url_ops (getDataURL mw fmt ed) in
  let pv := drawBaseCanvas mw true ed in
  getDataURL mw fmt ed = Encoded fmt cw ch ex
  /\ text_ids ex = map t_id (filter (text_in_frame mw cw ch) (texts s))
  /\ image_ids ex = map i_id (filter (fun it => has_el (imageMap ed) (i_id it)
                                                && image_in_frame cw ch it) (images s))
  /\ stroke_ids ex = map s_id (filter (fun st => existsb (point_in_frame cw ch) (s_points st))
                                 (strokes s))
  /\ stroke_draws ex = map (fun st => (s_id st, filter (point_in_frame cw ch) (s_points st)))
                         (filter (fun st => existsb (point_in_frame cw ch) (s_points st))
                            (strokes s))
  /\ text_ids pv = map t_id (texts s)
  /\ image_ids pv = map i_id (filter (fun it => has_el (imageMap ed) (i_id it)) (images s))
  /\ stroke_ids pv = map s_id (filter has_points (strokes s))
  /\ (forall t, t_x t == cw - 1 -> 1 < fst (measureText mw t) ->
        text_in_frame mw cw ch t = false).
Proof.
  destruct (baseImage ed) as [[bw bh]|] eqn:E; [|congruence].
  assert (Ec : contentSize ed = (bw, bh)) by (unfold contentSize; rewrite E; reflexivity).
  destruct (export_layer_ids mw ed bw bh) as ((T1 & T2 & T3) & (I1 & I2 & I3) & (S1 & S2 & S3)).
  destruct (preview_layer_ids mw ed true bw bh)
    as ((P1 & P2 & P3) & (Q1 & Q2 & Q3) & (R1 & R2 & R3)).
  destruct (export_stroke_draws mw ed bw bh) as (D1 & D2 & D3).
  unfold getDataURL, drawBaseCanvas. rewrite Hm, Ec, E. cbn [fst snd negb url_ops].
  unfold text_ids, image_ids, stroke_ids, stroke_draws in *.
  repeat split; rewrite ?flat_map_app; cbn [flat_map app]; rewrite ?flat_map_app;
    rewrite ?T1, ?T2, ?T3, ?I1, ?I2, ?I3, ?S1, ?S2, ?S3, ?D1, ?D2, ?D3;
    rewrite ?P1, ?P2, ?P3, ?Q1, ?Q2, ?Q3, ?R1, ?R2, ?R3;
    rewrite ?app_nil_r; try reflexivity.
  intros t Hx Hw. unfold text_in_frame.
  destruct (measureText mw t) as [tw th]. cbn [fst] in Hw, Hx.
  assert (Hr : Qle_bool (t_x t + tw / 2 + tw / 2) bw = false).
  { apply not_true_iff_false. rewrite Qle_bool_iff. intros Hle. qlra. }
  rewrite Hr, andb_false_r. reflexivity.
Qed.

Lemma export_omits_out_of_frame_layers_witness :
  let t := mkText "t" "wide" 799 100 20 "#000" "Fredoka One" (Some 0) in
  let ed := editor_with (set_texts defaultState [t]) in
  text_ids (url_ops (getDataURL (fun _ _ _ => 50) PNG ed)) = []
  /\ text_ids (drawBaseCanvas (fun _ _ _ => 50) true ed) = ["t"%string].
Proof.
  intros t ed.
  destruct (export_omits_out_of_frame_layers (fun _ _ _ => 50) PNG ed eq_refl
              ltac:(discriminate)) as (_ & Tx & _ & _ & _ & Tp & _).
  split.
  - rewrite Tx. reflexivity.
  - rewrite Tp. reflexivity.
Defined.

(** ** Export without a template *)

Definition ed_no_template : Editor :=
  mkEditor (History.reset defaultState) None None None None [] true.

(** C7 (as stated, refuted): with no base image loaded and the canvas
    mounted, [getDataURL] encodes an 800 x 600 raster (the background fill),
    not an empty result. *)
Lemma export_without_template_not_empty :
  getDataURL (fun _ _ _ => 0) PNG ed_no_template
    = Encoded PNG 800 600 [OpFill "#ffffff" 0 0 800 600]
  /\ getDataURL (fun _ _ _ => 0) PNG ed_no_template <> EmptyURL.
Proof. split; [reflexivity|discriminate]. Qed.

Lemma no_base_in_layer_ops (mw : string -> Q -> string -> Q) (ed : Editor) (w h : Q)
    (x y bw bh : Q) :
  let s := state ed in
  ~ In (OpBase x y bw bh)
      (flat_map (export_image_ops ed w h) (images s)
       ++ flat_map (export_text_ops mw w h) (texts s)
       ++ flat_map (export_stroke_ops w h) (strokes s)).
Proof.
  intros s. rewrite !in_app_iff, !in_flat_map.
  intros [(it & _ & Hi) | [(t & _ & Ht) | (st & _ & Hs)]].
  - unfold export_image_ops in Hi. destruct (_ && _); cbn in Hi; intuition discriminate.
  - unfold export_text_ops in Ht. destruct (measureText mw t).
    destruct (text_in_frame _ _ _ _); cbn in Ht; intuition discriminate.
  - unfold export_stroke_ops in Hs.
    destruct (filter _ _) as [|a [|b r]]; cbn in Hs; intuition discriminate.
Qed.

(** C7 (amended): with no base image loaded, [getDataURL] (either format)
    returns the empty result only when the canvas element is not mounted;
    otherwise it encodes a raster of the fixed 800 x 600 fallback frame: the
    background fill, no base-image draw, then the layers of the export
    path in that frame: the decoded images whose box lies in the frame, the
    texts whose measured box lies in the frame, and for every stroke with a
    point in the frame one op drawing exactly its in-frame points. *)
Theorem export_without_template (mw : string -> Q -> string -> Q) (fmt : Format)
    (ed : Editor) (Hb : baseImage ed = None) :
  (canvasMounted ed = false -> getDataURL mw fmt ed = EmptyURL)
  /\ (canvasMounted ed = true ->
      let W := FIXED_CANVAS_WIDTH in
      let H := FIXED_CANVAS_HEIGHT in
      let s := state ed in
      exists ops,
        getDataURL mw fmt ed = Encoded fmt W H (OpFill (bgColor s) 0 0 W H :: ops)
        /\ (forall x y w h, ~ In (OpBase x y w h) ops)
        /\ ops = flat_map (export_image_ops ed W H) (images s)
                 ++ flat_map (export_text_ops mw W H) (texts s)
                 ++ flat_map (export_stroke_ops W H) (strokes s)
        /\ text_ids ops = map t_id (filter (text_in_frame mw W H) (texts s))
        /\ image_ids ops = map i_id (filter (fun it => has_el (imageMap ed) (i_id it)
                                                      && image_in_frame W H it) (images s))
        /\ stroke_draws ops
           = map (fun st => (s_id st, filter (point_in_frame W H) (s_points st)))
               (filter (fun st => existsb (point_in_frame W H) (s_points st)) (strokes s))).
Proof.
  unfold getDataURL, contentSize. rewrite Hb. split; intros Hm; rewrite Hm; [reflexivity|].
  cbv zeta. eexists. split; [reflexivity|].
  split; [intros x y w h; apply no_base_in_layer_ops|].
  split; [reflexivity|].
  destruct (export_layer_ids mw ed FIXED_CANVAS_WIDTH FIXED_CANVAS_HEIGHT)
    as ((T1 & T2 & T3) & (I1 & I2 & I3) & _).
  destruct (export_stroke_draws mw ed FIXED_CANVAS_WIDTH FIXED_CANVAS_HEIGHT)
    as (D1 & D2 & D3).
  unfold text_ids, image_ids, stroke_draws in *.
  rewrite !flat_map_app, T1, T2, T3, I1, I2, I3, D1, D2, D3, ?app_nil_r.
  repeat split; reflexivity.
Qed.

Lemma export_without_template_witness :
  baseImage ed_no_template = None
  /\ (let W := FIXED_CANVAS_WIDTH in
      let H := FIXED_CANVAS_HEIGHT in
      let s := state ed_no_template in
      exists ops,
        getDataURL (fun _ _ _ => 0) JPEG ed_no_template
          = Encoded JPEG W H (OpFill (bgColor s) 0 0 W H :: ops)
        /\ (forall x y w h, ~ In (OpBase x y w h) ops)
        /\ ops = flat_map (export_image_ops ed_no_template W H) (images s)
                 ++ flat_map (export_text_ops (fun _ _ _ => 0) W H) (texts s)
                 ++ flat_map (export_stroke_ops W H) (strokes s)
        /\ text_ids ops = map t_id (filter (text_in_frame (fun _ _ _ => 0) W H) (texts s))
        /\ image_ids ops = map i_id (filter (fun it => has_el (imageMap ed_no_template) (i_id it)
                                                      && image_in_frame W H it) (images s))
        /\ stroke_draws ops
           = map (fun st => (s_id st, filter (point_in_frame W H) (s_points st)))
               (filter (fun st => existsb (point_in_frame W H) (s_points st)) (strokes s))).
Proof.
  split; [reflexivity|].
  exact (proj2 (export_without_template (fun _ _ _ => 0) JPEG ed_no_template eq_refl) eq_refl).
Defined.

(** ** Discrete image scaling *)

Lemma Qfloor_unique (n : Z) (q : Q) :
  inject_Z n <= q -> q < inject_Z n + 1 -> Qfloor q = n.
Proof.
  intros H1 H2. apply Z.le_antisymm.
  - assert (inject_Z (Qfloor q) < inject_Z (n + 1)).
    { rewrite inject_Z_plus. change (inject_Z 1) with 1. pose proof (Qfloor_le q). lra. }
    rewrite <- Zlt_Qlt in H. lia.
  - rewrite <- (Qfloor_Z n) at 1. apply Qfloor_resp_le. exact H1.
Qed.

(** Rounding [n * f] and then rounding the result times [1 / f] gives [n]
    back when [f >= 1]. *)
Lemma round_trip_ge1 (n : Z) (f : Q) :
  1 <= f -> Math_round (Math_round (inject_Z n * f) * (1 / f)) = inject_Z n.
Proof.
  intros Hf. unfold Math_round. f_equal.
  set (a := Qfloor (inject_Z n * f + (1 # 2))).
  assert (A1 : inject_Z a <= inject_Z n * f + (1 # 2)) by apply Qfloor_le.
  assert (A2 : inject_Z n * f + (1 # 2) < inject_Z a + 1).
  { pose proof (Qlt_floor (inject_Z n * f + (1 # 2))) as L.
    rewrite inject_Z_plus in L. change (inject_Z 1) with 1 in L. exact L. }
  assert (Fg : f * (1 / f) == 1) by (field; intros E; lra).
  assert (G0 : 0 < 1 / f).
  { apply Qlt_shift_div_l; lra. }
  assert (G1 : 1 / f <= 1).
  { apply Qle_shift_div_r; lra. }
  set (g := 1 / f) in *.
  assert (Lo : 0 <= (inject_Z a - inject_Z n * f + (1 # 2)) * g)
    by (apply Qmult_le_0_compat; lra).
  assert (Hi : 0 <= (inject_Z n * f + (1 # 2) - inject_Z a) * g)
    by (apply Qmult_le_0_compat; lra).
  assert (Lo' : inject_Z a * g + (1 # 2) >= inject_Z n + (1 # 2) * (1 - g)).
  { setoid_replace ((inject_Z a - inject_Z n * f + (1 # 2)) * g)
      with (inject_Z a * g - inject_Z n * (f * g) + (1 # 2) * g) in Lo by ring.
    rewrite Fg in Lo. lra. }
  assert (Hi' : inject_Z a * g <= inject_Z n + (1 # 2) * g).
  { setoid_replace ((inject_Z n * f + (1 # 2) - inject_Z a) * g)
      with (inject_Z n * (f * g) + (1 # 2) * g - inject_Z a * g) in Hi by ring.
    rewrite Fg in Hi. lra. }
  apply Qfloor_unique; [lra|].
  destruct (Qlt_le_dec g 1) as [Glt|Gge].
  - lra.
  - (* f = 1: the first rounding is exact *)
    assert (Ef : f == 1).
    { assert (g == 1) by lra. rewrite H in Fg. lra. }
    assert (Ea : a = n).
    { unfold a. apply Qfloor_unique; rewrite Ef; lra. }
    rewrite Ea. assert (g == 1) by lra. rewrite H. lra.
Qed.

Lemma find_map_update {X} (p : X -> bool) (f : X -> X) (l : list X) (it : X) :
  find p l = Some it -> (forall x, p (f x) = p x) ->
  find p (map (fun x => if p x then f x else x) l) = Some (f it).
Proof.
  intros Hf Hp. induction l as [|a l IH]; cbn in *; [discriminate|].
  destruct (p a) eqn:Ea.
  - injection Hf as <-. rewrite Hp, Ea. reflexivity.
  - rewrite Ea. apply IH. exact Hf.
Qed.

(** The image found by [scaleImage] after the call. *)
Lemma scaleImage_found (ed : Editor) (id : string) (f : Q) (it : ImageItem) :
  find (fun x => id_is id (i_id x)) (images (state ed)) = Some it ->
  let '(cw, ch) := contentSize ed in
  find (fun x => id_is id (i_id x)) (images (state (scaleImage id f ed)))
    = Some (mkImage (i_id it) (i_src it) (i_x it) (i_y it)
              (Math_min (Math_max 16 (Math_round (i_w it * f))) (cw - i_x it))
              (Math_min (Math_max 16 (Math_round (i_h it * f))) (ch - i_y it)))
  /\ contentSize (scaleImage id f ed) = contentSize ed.
Proof.
  intros Hf. unfold scaleImage. rewrite Hf. destruct (contentSize ed) as [cw ch] eqn:Ec.
  split; [|exact Ec].
  change (state (push ed ?s)) with s; cbn [images set_images].
  rewrite (find_map_update (fun x => id_is id (i_id x))
             (fun x => mkImage (i_id x) (i_src x) (i_x x) (i_y x)
                         (Math_min (Math_max 16 (Math_round (i_w it * f))) (cw - i_x it))
                         (Math_min (Math_max 16 (Math_round (i_h it * f))) (ch - i_y it)))
             (images (state ed)) it)
    by first [exact Hf | reflexivity].
  reflexivity.
Qed.

Lemma clamp_inactive (v lo hi : Q) : lo <= v -> v <= hi -> Math_min (Math_max lo v) hi = v.
Proof.
  intros H1 H2. unfold Math_max, Math_min.
  rewrite (proj2 (Qle_bool_iff lo v) H1), (proj2 (Qle_bool_iff v hi) H2). reflexivity.
Qed.

(** C8 (as stated, refuted): scaling a 101 x 101 image by 1/2 and then by
    2 gives 102 x 102, although no clamp is hit (51 and 102 lie in
    [16, 800]): [Math.round(50.5)] is 51. *)
Lemma scale_round_trip_rounding :
  let ed := editor_with (set_images defaultState [mkImage "a" "" 0 0 101 101]) in
  let f := 1 # 2 in
  images (state (scaleImage "a" f ed)) = [mkImage "a" "" 0 0 51 51]
  /\ images (state (scaleImage "a" (1 / f) (scaleImage "a" f ed)))
     = [mkImage "a" "" 0 0 102 102].
Proof. split; vm_compute; reflexivity. Qed.

(** C8 (amended): for an image with whole-unit dimensions and a factor
    [f >= 1], [scaleImage] by [f] and then by [1 / f] restores [{w, h}]
    unless a clamp (the 16 minimum or the frame maximum from the anchor) was
    hit in either step; for [0 < f < 1] the rounding to whole units may
    change the result. *)
Theorem scaleImage_round_trip (ed : Editor) (id : string) (f : Q) (it : ImageItem)
    (nw nh : Z)
    (Hfind : find (fun x => id_is id (i_id x)) (images (state ed)) = Some it)
    (Hw : i_w it = inject_Z nw) (Hh : i_h it = inject_Z nh) (Hf : 1 <= f)
    (Hc : let '(cw, ch) := contentSize ed in
          let w1 := Math_round (i_w it * f) in
          let h1 := Math_round (i_h it * f) in
          (16 <= w1 /\ w1 <= cw - i_x it) /\ (16 <= h1 /\ h1 <= ch - i_y it)
          /\ (16 <= Math_round (w1 * (1 / f)) /\ Math_round (w1 * (1 / f)) <= cw - i_x it)
          /\ (16 <= Math_round (h1 * (1 / f)) /\ Math_round (h1 * (1 / f)) <= ch - i_y it)) :
  find (fun x => id_is id (i_id x)) (images (state (scaleImage id (1 / f) (scaleImage id f ed))))
    = Some it.
Proof.
  pose proof (scaleImage_found ed id f it Hfind) as S1.
  destruct (contentSize ed) as [cw ch] eqn:Ec.
  destruct S1 as [F1 C1].
  destruct Hc as ((W1a & W1b) & (H1a & H1b) & (W2a & W2b) & (H2a & H2b)).
  rewrite (clamp_inactive _ _ _ W1a W1b), (clamp_inactive _ _ _ H1a H1b) in F1.
  pose proof (scaleImage_found (scaleImage id f ed) id (1 / f) _ F1) as S2.
  rewrite C1 in S2; try rewrite Ec in S2. destruct S2 as [F2 _]. cbn [i_w i_h i_x i_y i_id i_src] in F2.
  rewrite (clamp_inactive _ _ _ W2a W2b), (clamp_inactive _ _ _ H2a H2b) in F2.
  rewrite F2, Hw, Hh, !round_trip_ge1 by exact Hf.
  rewrite <- Hw, <- Hh. destruct it; reflexivity.
Qed.

Lemma scaleImage_round_trip_witness :
  let ed := editor_with (set_images defaultState [mkImage "a" "" 0 0 100 60]) in
  find (fun x => id_is "a" (i_id x))
    (images (state (scaleImage "a" (1 / (21 # 20)) (scaleImage "a" (21 # 20) ed))))
  = Some (mkImage "a" "" 0 0 100 60).
Proof.
  intros ed.
  apply (scaleImage_round_trip ed "a" (21 # 20) (mkImage "a" "" 0 0 100 60) 100 60).
  - reflexivity.
  - reflexivity.
  - reflexivity.
  - unfold Qle; cbn; lia.
  - vm_compute. repeat split; discriminate.
Defined.

(** ** Image minimum size *)

Definition min_size (it : ImageItem) : Prop := 16 <= i_w it /\ 16 <= i_h it.

(** Room for the minimum from the anchor of the image [id] acts on. *)
Definition room_for_min (ed : Editor) (id : string) : Prop :=
  forall it, find (fun x => id_is id (i_id x)) (images (state ed)) = Some it ->
  16 <= fst (contentSize ed) - i_x it /\ 16 <= snd (contentSize ed) - i_y it.

Lemma clamp16 (v hi : Q) : 16 <= hi -> 16 <= Math_min (Math_max 16 v) hi.
Proof.
  intros H. unfold Math_max, Math_min.
  destruct (Qle_bool 16 v) eqn:E1.
  - apply Qle_bool_iff in E1. destruct (Qle_bool v hi); lra.
  - destruct (Qle_bool 16 hi); lra.
Qed.

Lemma Forall_map_if (P : ImageItem -> Prop) (p : ImageItem -> bool)
    (g : ImageItem -> ImageItem) (l : list ImageItem) :
  Forall P l -> (forall x, P x -> p x = true -> P (g x)) ->
  Forall P (map (fun x => if p x then g x else x) l).
Proof.
  intros HF Hg. induction HF as [|x l Hx _ IH]; cbn; constructor; auto.
  destruct (p x) eqn:E; auto.
Qed.

Definition image_size (x : ImageItem) : string * Q * Q := (i_id x, i_w x, i_h x).

Lemma map_image_sizes (id : string) (f : ImageItem -> ImageItem) (l : list ImageItem) :
  (forall x, image_size (f x) = image_size x) ->
  map image_size (map_image id f l) = map image_size l.
Proof.
  intros Hf. unfold map_image. rewrite map_map. apply map_ext.
  intros x. destruct (id_is id (i_id x)); [apply Hf|reflexivity].
Qed.

(** C9 (as stated, refuted): adding an overlay image of natural size
    1000 x 10 to an empty 800 x 600 frame places it at (150, 298) with size
    500 x 5, below the minimum, and [resetImageSize] on that image gives
    650 x 7. *)
Lemma add_and_reset_below_min :
  let ed := onAddImages [Some ("a"%string, (1000, 10))] (editor_with defaultState) in
  images (state ed) = [mkImage "a" "" 150 298 500 5]
  /\ ~ Forall min_size (images (state ed))
  /\ images (state (resetImageSize "a" ed)) = [mkImage "a" "" 150 298 650 7].
Proof.
  intros ed.
  assert (E : images (state ed) = [mkImage "a" "" 150 298 500 5]) by (vm_compute; reflexivity).
  split; [exact E|]. split.
  - rewrite E. intros HF. inversion HF as [|x l [_ Hh] _]. cbn in Hh.
    unfold Qle in Hh; cbn in Hh; lia.
  - vm_compute. reflexivity.
Qed.

(** C9 (amended): [scaleImage] (also the discrete wheel zoom) and the
    interactive resize keep every image at least 16 x 16 when the image
    acted on has room for 16 units from its anchor to the right and bottom
    edges of the frame; a drag move (of any tool) leaves the id, width and
    height of every image unchanged. Adding images and [resetImageSize] do
    not apply the minimum. *)
Theorem image_min_size_preserved (ed : Editor) (id : string)
    (Hall : Forall min_size (images (state ed))) (Hroom : room_for_min ed id) :
  (forall f, Forall min_size (images (state (scaleImage id f ed))))
  /\ (forall mw atan2_deg hypot tf pt, tf_id tf = id ->
        Forall min_size (images (state
          (onCanvasPointerMove mw atan2_deg hypot ToolImage (Some tf) None pt ed))))
  /\ (forall mw atan2_deg hypot tool tf drawing pt, tf_mode tf = ModeDrag ->
        map image_size (images (state
          (onCanvasPointerMove mw atan2_deg hypot tool (Some tf) drawing pt ed)))
        = map image_size (images (state ed))).
Proof.
  unfold room_for_min in Hroom. split; [|split].
  - intros f. unfold scaleImage.
    destruct (find (fun x => id_is id (i_id x)) (images (state ed))) as [it|] eqn:Hf;
      [|exact Hall].
    specialize (Hroom it eq_refl).
    destruct (contentSize ed) as [cw ch]; cbn [fst snd] in Hroom.
    change (state (push ed ?s)) with s; cbn [images set_images].
    apply Forall_map_if; [exact Hall|].
    intros x _ _. unfold min_size; cbn [i_w i_h].
    split; apply clamp16; tauto.
  - intros mw atan2_deg hypot tf pt Hid. subst id.
    unfold onCanvasPointerMove.
    destruct (contentSize ed) as [cw ch] eqn:Ec.
    destruct (tf_target tf) as [[]|]; destruct (tf_mode tf); try exact Hall.
    + destruct (find _ (images (state ed))) as [it|]; [|exact Hall].
      change (state (setState ed ?s)) with s; cbn [images set_images].
      apply Forall_map_if; [exact Hall|].
      intros x Hx _. exact Hx.
    + destruct (find _ (images (state ed))) as [it|] eqn:Hf; [|exact Hall].
      destruct (initialW tf), (initialH tf); try exact Hall.
      specialize (Hroom it ltac:(first [reflexivity | exact Hf])).
      rewrite ?Ec in Hroom; cbn [fst snd] in Hroom.
      change (state (setState ed ?s)) with s; cbn [images set_images].
      apply Forall_map_if; [exact Hall|].
      intros x _ _. unfold min_size; cbn [i_w i_h].
      split; apply clamp16; tauto.
  - intros mw atan2_deg hypot tool tf drawing pt Hd.
    unfold onCanvasPointerMove. rewrite Hd.
    destruct (contentSize ed) as [cw ch].
    repeat match goal with
           | |- context [match ?x with _ => _ end] => destruct x
           end; try reflexivity.
    all: change (state (setState ed ?s)) with s;
         cbn [images set_images set_texts set_strokes]; try reflexivity.
    apply map_image_sizes. intros x. reflexivity.
Qed.

Lemma image_min_size_preserved_witness :
  let ed := editor_with (set_images defaultState [mkImage "a" "" 0 0 100 100]) in
  Forall min_size (images (state ed)) /\ room_for_min ed "a"
  /\ Forall min_size (images (state (scaleImage "a" (1 # 10) ed))).
Proof.
  intros ed.
  assert (H1 : Forall min_size (images (state ed))).
  { constructor; [|constructor]. split; vm_compute; intros E; discriminate E. }
  assert (H2 : room_for_min ed "a").
  { intros it Hf. vm_compute in Hf. injection Hf as <-.
    split; vm_compute; intros E; discriminate E. }
  split; [exact H1|]. split; [exact H2|].
  exact (proj1 (image_min_size_preserved ed "a" H1 H2) (1 # 10)).
Defined.

(** ** Text hit-testing priority *)

Section HitPriority.

Variable measure_width : string -> Q -> string -> Q.
Variable trig : Q -> Q * Q.

Definition no_zone (pt : Q * Q) (t : TextItem) : Prop :=
  let r := hitTestTextLocal measure_width trig pt t in
  isOnRotate r = false /\ isOnResize r = false /\ within r = false.

Lemma scan_texts_drag (pt : Q * Q) (l : list TextItem) (t : TextItem) (res : TextHit) :
  scan_texts measure_width trig pt l = Some (ModeDrag, t, res) ->
  res = hitTestTextLocal measure_width trig pt t
  /\ isOnRotate res = false /\ isOnResize res = false /\ within res = true.
Proof.
  induction l as [|u l IH]; cbn [scan_texts]; [intros H; discriminate H|].
  set (r := hitTestTextLocal measure_width trig pt u).
  destruct (isOnRotate r) eqn:E1; [intros H; discriminate H|].
  destruct (isOnResize r) eqn:E2; [intros H; discriminate H|].
  destruct (within r) eqn:E3; [|exact IH].
  intros H. injection H as Hu Hr. subst u res r. auto.
Qed.

Lemma scan_texts_skip (pt : Q * Q) (l r : list TextItem) :
  (forall u, In u l -> no_zone pt u) ->
  scan_texts measure_width trig pt (l ++ r) = scan_texts measure_width trig pt r.
Proof.
  induction l as [|u l IH]; intros Hn; [reflexivity|].
  cbn [app scan_texts].
  destruct (Hn u (or_introl eq_refl)) as (E1 & E2 & E3).
  rewrite E1, E2, E3. apply IH. intros v Hv. apply Hn. right. exact Hv.
Qed.

(** The rotate circle lies wholly above the body box. *)
Lemma rotate_handle_outside_body (pt : Q * Q) (t : TextItem) :
  within (hitTestTextLocal measure_width trig pt t) = true ->
  isOnRotate (hitTestTextLocal measure_width trig pt t) = false.
Proof.
  unfold hitTestTextLocal.
  destruct (measureText measure_width t) as [w h].
  destruct (trig (pick (t_rotationDeg t) 0)) as [c s].
  cbn [within isOnRotate].
  set (lx := (fst pt - (t_x t + w / 2)) * c - (snd pt - (t_y t - h / 2)) * s).
  set (ly := (fst pt - (t_x t + w / 2)) * s + (snd pt - (t_y t - h / 2)) * c).
  clearbody lx ly.
  intros Hw. apply andb_prop in Hw as [Hw H4]. apply andb_prop in Hw as [Hw H3].
  apply Qle_bool_iff in H3.
  unfold hypot_le.
  match goal with |- Qle_bool ?a ?b = false => destruct (Qle_bool a b) eqn:E end;
    [|reflexivity].
  apply Qle_bool_iff in E. exfalso.
  set (a := ly - (- h / 2 - 16)) in E.
  assert (Ha : 16 <= a) by (unfold a; qlra).
  assert (Hsq : 0 <= (lx - 0) * (lx - 0)) by nra.
  assert (Ha2 : 256 <= a * a) by nra.
  lra.
Qed.

End HitPriority.

(** C4: text hit-testing scans the texts from the last (topmost) to the
    first and, per text, tests the rotate handle, then the resize handle,
    then the body. A drag result never has its point on the rotate or the
    resize handle of the text; a point in the body box is never in the
    rotate circle (that circle lies above the box, so no point is in
    both); a point on the rotate handle of a text above which no text is
    hit resolves to rotate; and the pointer-down session has the mode of
    the hit. *)
Theorem text_hit_priority (mw : string -> Q -> string -> Q) (trig : Q -> Q * Q)
    (atan2_deg : Q -> Q -> Q) :
  (forall pt ts t res, hitText mw trig pt ts = Some (ModeDrag, t, res) ->
     res = hitTestTextLocal mw trig pt t
     /\ isOnRotate res = false /\ isOnResize res = false /\ within res = true)
  /\ (forall pt t, within (hitTestTextLocal mw trig pt t) = true ->
        isOnRotate (hitTestTextLocal mw trig pt t) = false)
  /\ (forall pt pre t post, isOnRotate (hitTestTextLocal mw trig pt t) = true ->
        (forall u, In u post -> no_zone mw trig pt u) ->
        hitText mw trig pt (pre ++ t :: post)
        = Some (ModeRotate, t, hitTestTextLocal mw trig pt t))
  /\ (forall pt fresh color size ed kind t res,
        hitText mw trig pt (texts (state ed)) = Some (kind, t, res) ->
        option_map tf_mode
          (snd (onCanvasPointerDown mw trig atan2_deg ToolText pt fresh color size ed))
        = Some kind).
Proof.
  split; [|split; [|split]].
  - intros pt ts t res. apply scan_texts_drag.
  - apply rotate_handle_outside_body.
  - intros pt pre t post Hr Hpost. unfold hitText.
    rewrite rev_app_distr. cbn [rev]. rewrite <- app_assoc. cbn [app].
    rewrite scan_texts_skip.
    + cbn [scan_texts]. rewrite Hr. reflexivity.
    + intros u Hu. apply Hpost. apply in_rev. exact Hu.
  - intros pt fresh color size ed kind t res H.
    cbv beta zeta delta [onCanvasPointerDown]. rewrite H.
    destruct kind; reflexivity.
Qed.

(** The rotate handle of an unrotated 100 x 20 text anchored at (0, 50) is
    reached at (50, 14), 26 units above the box center. *)
Lemma rotate_handle_reachable :
  isOnRotate (hitTestTextLocal (fun _ _ _ => 100) (fun _ => (1, 0)) (50, 14)
                (mkText "t" "hello" 0 50 20 "#000" "Fredoka One" (Some 0))) = true.
Proof. vm_compute. reflexivity. Qed.

(** ** Drag clamping *)

Definition dragged_text : TextItem := mkText "t" "hello" 0 50 20 "#000" "Fredoka One" (Some 0).
Definition dragged_image : ImageItem := mkImage "i" "" 0 0 100 100.

Definition drag_session (target : option Target) (id : string) : Transform :=
  mkTransform ModeDrag id target (Some 0) (Some 0) None None None None None None None.

(** C5 (code slip): dragging a text with the pointer at (799, 300) and a
    zero press offset in the 800 x 600 frame moves its anchor to x = 799,
    whatever its measured width; with any width above 1 its box runs past
    the right edge. The image drag at the same point keeps the whole
    100-wide box inside (x = 700). *)
Theorem text_drag_clamps_anchor_only (mw : string -> Q -> string -> Q)
    (atan2_deg hypot : Q -> Q -> Q) :
  (exists t',
     texts (state (onCanvasPointerMove mw atan2_deg hypot ToolText
                     (Some (drag_session None "t")) None (799, 300)
                     (editor_with (set_texts defaultState [dragged_text])))) = [t']
     /\ t_x t' = 799 /\ t_y t' = 320
     /\ (1 < fst (measureText mw t') -> FIXED_CANVAS_WIDTH < t_x t' + fst (measureText mw t')))
  /\ images (state (onCanvasPointerMove mw atan2_deg hypot ToolImage
                      (Some (drag_session (Some TargetImage) "i")) None (799, 300)
                      (editor_with (set_images defaultState [dragged_image]))))
     = [mkImage "i" "" 700 300 100 100].
Proof.
  split.
  - eexists. split; [vm_compute; reflexivity|].
    split; [vm_compute; reflexivity|]. split; [vm_compute; reflexivity|].
    cbn [t_x]. unfold FIXED_CANVAS_WIDTH. intros H. qlra.
  - vm_compute. reflexivity.
Qed.

(** ** Extra properties *)

(** *** Rounding to whole units *)

Definition is_int (q : Q) : Prop := exists z, q = inject_Z z.

Lemma round_is_int (q : Q) : is_int (Math_round q).
Proof. eexists; reflexivity. Qed.

Lemma max_min_int (a b c : Q) :
  is_int a -> is_int b -> is_int c -> is_int (Math_max a (Math_min b c)).
Proof.
  intros Ha Hb Hc. unfold Math_max, Math_min.
  destruct (Qle_bool b c); destruct (Qle_bool a _); assumption.
Qed.

Lemma int_sub (a b : Z) : inject_Z a - inject_Z b == inject_Z (a - b).
Proof. unfold Qeq; cbn; lia. Qed.

Lemma round_le_int (q : Q) (n : Z) : q < inject_Z n + (1 # 2) -> Math_round q <= inject_Z n.
Proof.
  intros H. unfold Math_round. rewrite <- Zle_Qle.
  pose proof (Qfloor_le (q + (1 # 2))) as F.
  assert (L : inject_Z (Qfloor (q + (1 # 2))) < inject_Z (n + 1)).
  { rewrite inject_Z_plus. change (inject_Z 1) with 1. lra. }
  rewrite <- Zlt_Qlt in L. lia.
Qed.

Lemma int_le_round (q : Q) (n : Z) : inject_Z n - (1 # 2) <= q -> inject_Z n <= Math_round q.
Proof.
  intros H. unfold Math_round. rewrite <- Zle_Qle.
  pose proof (Qlt_floor (q + (1 # 2))) as F.
  assert (L : inject_Z n < inject_Z (Qfloor (q + (1 # 2)) + 1)) by lra.
  rewrite <- Zlt_Qlt in L. lia.
Qed.


Lemma Qle_bool_false (a b : Q) : Qle_bool a b = false -> b < a.
Proof.
  intros E. apply Qnot_le_lt. intros H. apply Qle_bool_iff in H. congruence.
Qed.

Ltac minmax :=
  unfold Math_max, Math_min in *;
  repeat match goal with
         | |- context [Qle_bool ?a ?b] =>
             let E := fresh "E" in
             destruct (Qle_bool a b) eqn:E;
             [apply Qle_bool_iff in E | apply Qle_bool_false in E]
         end.





Ltac destruct_matches :=
  repeat match goal with
         | |- context [match ?x with _ => _ end] => destruct x
         end.

Lemma pointerMove_history mw atan2_deg hypot tool tf drawing pt ed :
  entries (hist (onCanvasPointerMove mw atan2_deg hypot tool tf drawing pt ed)) = entries (hist ed)
  /\ cursor (hist (onCanvasPointerMove mw atan2_deg hypot tool tf drawing pt ed)) = cursor (hist ed).
Proof.
  unfold onCanvasPointerMove. cbv zeta. destruct (contentSize ed) as [cw ch].
  destruct_matches; split; reflexivity.
Qed.

Lemma pointerDown_history mw trig atan2_deg tool pt fresh color size ed :
  entries (hist (fst (onCanvasPointerDown mw trig atan2_deg tool pt fresh color size ed))) = entries (hist ed)
  /\ cursor (hist (fst (onCanvasPointerDown mw trig atan2_deg tool pt fresh color size ed))) = cursor (hist ed).
Proof.
  unfold onCanvasPointerDown. cbv zeta.
  destruct_matches; split; reflexivity.
Qed.

Lemma pointerMove_idle mw atan2_deg hypot tool pt ed :
  onCanvasPointerMove mw atan2_deg hypot tool None None pt ed = ed.
Proof.
  unfold onCanvasPointerMove. cbv zeta. destruct (contentSize ed). destruct tool; reflexivity.
Qed.

Lemma pointerMove_other mw atan2_deg hypot tool tf drawing pt ed :
  tool <> ToolImage -> tool <> ToolText -> tool <> ToolDraw ->
  onCanvasPointerMove mw atan2_deg hypot tool tf drawing pt ed = ed.
Proof.
  intros H1 H2 H3. unfold onCanvasPointerMove. cbv zeta. destruct (contentSize ed).
  destruct tool; congruence.
Qed.

Lemma fold_idle {X Y} (f : X -> Y -> X) (l : list Y) (x : X) :
  (forall x y, f x y = x) -> fold_left f l x = x.
Proof.
  intros H. revert x. induction l as [|y l IH]; intros x; cbn; [reflexivity|].
  rewrite H. apply IH.
Qed.

Lemma pointerDown_hist_not_draw mw trig atan2_deg tool pt fresh color size ed :
  tool <> ToolDraw ->
  hist (fst (onCanvasPointerDown mw trig atan2_deg tool pt fresh color size ed)) = hist ed.
Proof.
  intros Ht. unfold onCanvasPointerDown. cbv zeta.
  destruct tool; try congruence; destruct_matches; reflexivity.
Qed.

Lemma nth_firstn_lt {X} (n i : nat) (l : list X) (d : X) :
  (i < n)%nat -> nth i (firstn n l) d = nth i l d.
Proof.
  revert n l. induction i as [|i IH]; intros [|n] [|a l] H; cbn; try lia; try reflexivity.
  apply IH. lia.
Qed.

Lemma undo_after_push {A} (h : History.t A) (x : A) :
  (cursor h < length (entries h))%nat ->
  entries (pushHistory h x) = firstn (cursor h + 1) (entries h) ++ [x]
  /\ cursor (pushHistory h x) = S (cursor h)
  /\ current (undo (pushHistory h x)) = nth (cursor h) (entries h) x.
Proof.
  intros Hc.
  assert (L : length (firstn (cursor h + 1) (entries h) ++ [x]) = (cursor h + 2)%nat).
  { rewrite length_app, length_firstn. cbn. lia. }
  unfold undo, canUndo, pushHistory. cbn [History.cursor History.entries History.current].
  rewrite L. replace (cursor h + 2 - 1)%nat with (S (cursor h)) by lia.
  split; [reflexivity|]. split; [reflexivity|].
  cbn [Nat.ltb Nat.leb History.current].
  replace (S (cursor h) - 1)%nat with (cursor h) by lia.
  rewrite app_nth1 by (rewrite length_firstn; lia).
  apply nth_firstn_lt. lia.
Qed.

Definition synced (ed : Editor) : Prop :=
  (cursor (hist ed) < length (entries (hist ed)))%nat
  /\ nth (cursor (hist ed)) (entries (hist ed)) (state ed) = state ed.

Section Gesture.

Variable measure_width : string -> Q -> string -> Q.
Variable trig : Q -> Q * Q.
Variable atan2_deg : Q -> Q -> Q.
Variable hypot : Q -> Q -> Q.

Definition pointer_gesture (tool : Tool) (pt0 : Q * Q) (pts : list (Q * Q))
    (fresh color : string) (size : Q) (ed : Editor) : Editor :=
  let '(ed1, tf) := onCanvasPointerDown measure_width trig atan2_deg tool pt0 fresh color size ed in
  let drawing := match tool with ToolDraw => Some fresh | _ => None end in
  let active := match tf, drawing with None, None => false | _, _ => true end in
  onCanvasPointerUp tool active
    (fold_left (fun e p => onCanvasPointerMove measure_width atan2_deg hypot tool tf drawing p e)
       pts ed1).

End Gesture.

Lemma moves_history mw atan2_deg hypot tool tf drawing pts ed :
  let ed' := fold_left (fun e p => onCanvasPointerMove mw atan2_deg hypot tool tf drawing p e) pts ed in
  entries (hist ed') = entries (hist ed) /\ cursor (hist ed') = cursor (hist ed).
Proof.
  revert ed. induction pts as [|p pts IH]; intros ed; cbn [fold_left]; [split; reflexivity|].
  destruct (IH (onCanvasPointerMove mw atan2_deg hypot tool tf drawing p ed)) as [E C].
  destruct (pointerMove_history mw atan2_deg hypot tool tf drawing p ed) as [E' C'].
  split; congruence.
Qed.

(** X3: a pointer gesture (pointer-down, any number of moves, pointer-up)
    on a history whose cursor addresses an entry either leaves the history
    untouched (no session started: no hit, or a tool without sessions) or
    records exactly one entry, the live state at pointer-up, after
    dropping the redo entries, with the cursor on it. The moves themselves
    never add entries. *)
Theorem gesture_single_entry mw trig atan2_deg hypot tool pt0 pts fresh color size ed
    (Hwf : wf (hist ed)) :
  let ed' := pointer_gesture mw trig atan2_deg hypot tool pt0 pts fresh color size ed in
  hist ed' = hist ed
  \/ (entries (hist ed') = firstn (cursor (hist ed) + 1) (entries (hist ed)) ++ [state ed']
      /\ cursor (hist ed') = S (cursor (hist ed))).
Proof.
  cbv zeta. unfold pointer_gesture.
  pose proof (pointerDown_history mw trig atan2_deg tool pt0 fresh color size ed) as [D1 D2].
  destruct (onCanvasPointerDown mw trig atan2_deg tool pt0 fresh color size ed) as [ed1 tf] eqn:Ed.
  cbn [fst] in D1, D2.
  set (drawing := match tool with ToolDraw => Some fresh | _ => None end).
  destruct (moves_history mw atan2_deg hypot tool tf drawing pts ed1) as [M1 M2].
  set (ed2 := fold_left _ pts ed1) in *.
  assert (Active : forall ed2', (entries (hist ed2') = entries (hist ed) /\ cursor (hist ed2') = cursor (hist ed)) ->
     entries (hist (push ed2' (state ed2'))) = firstn (cursor (hist ed) + 1) (entries (hist ed)) ++ [state (push ed2' (state ed2'))]
     /\ cursor (hist (push ed2' (state ed2'))) = S (cursor (hist ed))).
  { intros e [E C]. pose proof Hwf as Hc. unfold wf in Hc.
    rewrite <- E, <- C in Hc.
    destruct (undo_after_push (hist e) (state e) Hc) as (U1 & U2 & _).
    split.
    - change (entries (pushHistory (hist e) (state e))
              = firstn (cursor (hist ed) + 1) (entries (hist ed)) ++ [state e]).
      rewrite U1, E, C. reflexivity.
    - change (cursor (pushHistory (hist e) (state e)) = S (cursor (hist ed))).
      rewrite U2, C. reflexivity. }
  pose proof (pointerDown_hist_not_draw mw trig atan2_deg tool pt0 fresh color size ed) as ND.
  rewrite Ed in ND. cbn [fst] in ND.
  destruct tool; cbn [onCanvasPointerUp]; subst drawing.
  - left. unfold ed2. rewrite fold_idle by (intros; apply pointerMove_other; discriminate).
    apply ND. discriminate.
  - left. unfold ed2. rewrite fold_idle by (intros; apply pointerMove_other; discriminate).
    apply ND. discriminate.
  - destruct tf as [tf|].
    + right. apply Active. split; congruence.
    + left. unfold ed2. rewrite fold_idle by (intros; apply pointerMove_idle).
      apply ND. discriminate.
  - right. destruct tf; apply Active; split; congruence.
  - left. unfold ed2. rewrite fold_idle by (intros; apply pointerMove_other; discriminate).
    apply ND. discriminate.
  - destruct tf as [tf|].
    + right. apply Active. split; congruence.
    + left. unfold ed2. rewrite fold_idle by (intros; apply pointerMove_idle).
      apply ND. discriminate.
Qed.

Lemma gesture_single_entry_witness :
  let ed := editor_with defaultState in
  wf (hist ed)
  /\ (let ed' := pointer_gesture (fun _ _ _ => 0) (fun _ => (1, 0)) (fun _ _ => 0) (fun _ _ => 0)
                  ToolDraw (1, 1) [(2, 2)] "s" "#111111" 6 ed in
      hist ed' = hist ed
      \/ (entries (hist ed') = firstn (cursor (hist ed) + 1) (entries (hist ed)) ++ [state ed']
          /\ cursor (hist ed') = S (cursor (hist ed)))).
Proof.
  intros ed. assert (Hs : wf (hist ed)) by (unfold wf; cbn; lia).
  split; [exact Hs|]. exact (gesture_single_entry _ _ _ _ ToolDraw (1, 1) [(2, 2)] "s" "#111111" 6 ed Hs).
Defined.

Lemma draw_moves mw atan2_deg hypot tf fresh color size (old : list Stroke) pts :
  ~ In fresh (map s_id old) ->
  forall ps e, strokes (state e) = old ++ [mkStroke fresh ps color size] ->
  let e' := fold_left (fun e p => onCanvasPointerMove mw atan2_deg hypot ToolDraw tf (Some fresh) p e) pts e in
  strokes (state e') = old ++ [mkStroke fresh (ps ++ pts) color size]
  /\ texts (state e') = texts (state e) /\ images (state e') = images (state e).
Proof.
  intros Hf. induction pts as [|p pts IH]; intros ps e He; cbn [fold_left].
  - rewrite app_nil_r. auto.
  - set (e1 := onCanvasPointerMove mw atan2_deg hypot ToolDraw tf (Some fresh) p e).
    assert (H1 : strokes (state e1) = old ++ [mkStroke fresh (ps ++ [p]) color size]
                 /\ texts (state e1) = texts (state e) /\ images (state e1) = images (state e)).
    { unfold e1, onCanvasPointerMove. cbv zeta. destruct (contentSize e).
      change (state (setState e ?s)) with s. cbn [strokes texts images set_strokes].
      rewrite He, map_app.
      rewrite (map_if_absent (fun st => id_is fresh (s_id st))) by (apply id_is_absent; exact Hf).
      cbn. unfold id_is. rewrite String.eqb_refl. auto. }
    destruct H1 as (S1 & T1 & I1).
    destruct (IH (ps ++ [p]) e1 S1) as (S2 & T2 & I2).
    rewrite <- app_assoc in S2. cbn [app] in S2. split; [exact S2|]. split; congruence.
Qed.

(** X4: a draw gesture with a fresh stroke id appends exactly one stroke,
    whose points are the pointer-down point followed by every move point in
    order, with the brush color and size; texts and images are unchanged. *)
Theorem draw_gesture_stroke mw trig atan2_deg hypot pt0 pts fresh color size ed
    (Hf : ~ In fresh (map s_id (strokes (state ed)))) :
  let ed' := pointer_gesture mw trig atan2_deg hypot ToolDraw pt0 pts fresh color size ed in
  strokes (state ed') = strokes (state ed) ++ [mkStroke fresh (pt0 :: pts) color size]
  /\ texts (state ed') = texts (state ed) /\ images (state ed') = images (state ed).
Proof.
  cbv zeta. unfold pointer_gesture. cbn [onCanvasPointerDown onCanvasPointerUp fst snd].
  set (e0 := setState ed _).
  destruct (draw_moves mw atan2_deg hypot None fresh color size (strokes (state ed)) pts Hf [pt0] e0 eq_refl)
    as (S1 & T1 & I1).
  rewrite !state_push. auto.
Qed.

Lemma draw_gesture_stroke_witness :
  ~ In "s"%string (map s_id (strokes (state (editor_with defaultState))))
  /\ (let ed' := pointer_gesture (fun _ _ _ => 0) (fun _ => (1, 0)) (fun _ _ => 0) (fun _ _ => 0)
                  ToolDraw (1, 1) [(2, 2); (3, 5)] "s" "#111111" 6 (editor_with defaultState) in
      strokes (state ed') = [] ++ [mkStroke "s" [(1, 1); (2, 2); (3, 5)] "#111111" 6]
      /\ texts (state ed') = [] /\ images (state ed') = []).
Proof.
  assert (Hf : ~ In "s"%string (map s_id (strokes (state (editor_with defaultState))))) by (intros []).
  split; [exact Hf|].
  exact (draw_gesture_stroke (fun _ _ _ => 0) (fun _ => (1, 0)) (fun _ _ => 0) (fun _ _ => 0)
           (1, 1) [(2, 2); (3, 5)] "s" "#111111" 6 (editor_with defaultState) Hf).
Defined.

(** *** One undo per handle operation *)

Lemma redo_undo_push {A} (h : History.t A) (x : A) :
  (cursor h < length (entries h))%nat ->
  current (redo (undo (pushHistory h x))) = x.
Proof.
  intros Hc.
  assert (L : length (firstn (cursor h + 1) (entries h) ++ [x]) = (cursor h + 2)%nat).
  { rewrite length_app, length_firstn. cbn. lia. }
  unfold redo, undo, canRedo, canUndo, pushHistory. cbn [History.cursor History.entries History.current].
  rewrite L. replace (cursor h + 2 - 1)%nat with (S (cursor h)) by lia.
  cbn [Nat.ltb Nat.leb History.cursor History.entries History.current].
  replace (S (cursor h) - 1)%nat with (cursor h) by lia.
  rewrite L. replace (cursor h + 2 - 1)%nat with (S (cursor h)) by lia.
  replace (Nat.leb (cursor h) (cursor h)) with true by (symmetry; apply Nat.leb_le; lia).
  cbn [History.current].
  rewrite app_nth2 by (rewrite length_firstn; lia).
  rewrite length_firstn. replace (S (cursor h) - Nat.min (cursor h + 1) (length (entries h)))%nat
    with 0%nat by lia. reflexivity.
Qed.

(** Undo and redo of an operation that pushed [s], whatever it did to the
    selection. *)
Lemma undo_redo_of_push (ed ed' : Editor) (s : EditorState) :
  synced ed -> hist ed' = pushHistory (hist ed) s ->
  state (editor_undo ed') = state ed /\ state (editor_redo (editor_undo ed')) = s.
Proof.
  intros [Hc Hn] Hh. unfold editor_undo, editor_redo, state. cbn [set_hist hist]. rewrite Hh.
  destruct (undo_after_push (hist ed) s Hc) as (_ & _ & U). rewrite U.
  rewrite (nth_indep _ _ (state ed)) by exact Hc.
  split; [exact Hn|]. apply redo_undo_push. exact Hc.
Qed.

(** X5: on a history whose live state is its current entry, each handle
    operation that records an entry ([addText], [updateText], [removeText],
    [clearStrokes], [rotateBy], [removeImage], and [scaleImage],
    [resetImageSize] for an id that exists) is reverted by one undo, and
    the redo that follows restores its result. *)
Theorem single_undo_reverts (ed : Editor) (Hs : synced ed) :
  let ok op := state (editor_undo (op ed)) = state ed
               /\ state (editor_redo (editor_undo (op ed))) = state (op ed) in
  (forall id, ok (addText id)) /\ (forall id p, ok (updateText id p))
  /\ (forall id, ok (removeText id)) /\ ok clearStrokes /\ (forall d, ok (rotateBy d))
  /\ (forall id, ok (removeImage id))
  /\ (forall id f, find (fun x => id_is id (i_id x)) (images (state ed)) <> None ->
        ok (scaleImage id f) /\ ok (resetImageSize id)).
Proof.
  cbv zeta.
  assert (G : forall ed', (exists s, hist ed' = pushHistory (hist ed) s) ->
     state (editor_undo ed') = state ed /\ state (editor_redo (editor_undo ed')) = state ed').
  { intros ed' [s Hh]. destruct (undo_redo_of_push ed ed' s Hs Hh) as [U R].
    split; [exact U|]. rewrite R. unfold state. rewrite Hh. reflexivity. }
  split; [intros id; apply G; unfold addText; destruct (contentSize ed); eexists; reflexivity|].
  split; [intros id p; apply G; eexists; reflexivity|].
  split; [intros id; apply G; eexists; unfold removeText; destruct (sel_is _ _); reflexivity|].
  split; [apply G; eexists; reflexivity|].
  split; [intros d; apply G; eexists; reflexivity|].
  split; [intros id; apply G; eexists; unfold removeImage; destruct (sel_is _ _); reflexivity|].
  intros id f Hf. split; apply G.
  - unfold scaleImage. destruct (find _ _); [|congruence].
    destruct (contentSize ed); eexists; reflexivity.
  - unfold resetImageSize. destruct (find _ _); [|congruence].
    destruct (contentSize ed); eexists; reflexivity.
Qed.

Lemma single_undo_reverts_witness :
  synced (editor_with defaultState)
  /\ state (editor_undo (clearStrokes (editor_with defaultState))) = defaultState.
Proof.
  assert (Hs : synced (editor_with defaultState)) by (split; [cbn; lia | reflexivity]).
  split; [exact Hs|].
  exact (proj1 (proj1 (proj2 (proj2 (proj2 (single_undo_reverts _ Hs)))))).
Defined.


Lemma arrow_key_facts (k : string) :
  In k arrow_keys ->
  key_lower_is k "z" "Z" = false /\ key_lower_is k "y" "Y" = false
  /\ String.eqb k "Escape" = false /\ existsb (String.eqb k) arrow_keys = true
  /\ existsb (includes k) arrow_keys = true.
Proof. intros [<-|[<-|[<-|[<-|[]]]]]; vm_compute; repeat split. Qed.

(** X6: with a template loaded and a (non-empty) image id selected whose
    image lies in the frame, an arrow key records exactly one history entry
    and the moved image still lies in the frame, with its size unchanged. *)
Lemma arrow_image_in_frame (e : KeyEvent) (ed : Editor) (sid : string) (it : ImageItem)
    (Hb : baseImage ed <> None) (Hsel : selectedImageId ed = Some sid) (Hne : sid <> ""%string)
    (Hk : In (key e) arrow_keys)
    (Hf : find (fun x => id_is sid (i_id x)) (images (state ed)) = Some it)
    (Hin : 0 <= i_x it <= fst (contentSize ed) - i_w it
           /\ 0 <= i_y it <= snd (contentSize ed) - i_h it) :
  let ed' := onKey e ed in
  entries (hist ed') = firstn (cursor (hist ed) + 1) (entries (hist ed)) ++ [state ed']
  /\ exists x y,
       find (fun x => id_is sid (i_id x)) (images (state ed'))
         = Some (mkImage (i_id it) (i_src it) x y (i_w it) (i_h it))
       /\ 0 <= x <= fst (contentSize ed) - i_w it
       /\ 0 <= y <= snd (contentSize ed) - i_h it.
Proof.
  assert (Ei : i_id it = sid).
  { apply find_some in Hf as [_ Hf]. unfold id_is in Hf. apply String.eqb_eq in Hf. exact Hf. }
  subst sid. destruct e as [k c m sh]. cbn [key] in *.
  destruct (arrow_key_facts k Hk) as (K1 & K2 & K3 & K4 & _).
  unfold onKey. destruct (baseImage ed) as [b|] eqn:Eb; [|congruence]. cbn [key ctrlKey metaKey shiftKey].
  rewrite K1, K2, K3, !andb_false_r.
  set (step := if sh then 10 else 1).
  assert (Hst : 0 < step) by (unfold step; destruct sh; reflexivity).
  clearbody step.
  rewrite Hsel. replace (truthy (Some (i_id it))) with true
    by (cbn; destruct (String.eqb (i_id it) "") eqn:E; [apply String.eqb_eq in E; congruence | reflexivity]).
  unfold onKey_image. cbn [key].
  destruct (contentSize ed) as [cw ch] eqn:Ec. cbn [fst snd] in *.
  rewrite Hf, K4.
  split; [reflexivity|].
  rewrite state_push; cbn [images set_images].
  erewrite find_map_update; [| exact Hf | reflexivity].
  do 2 eexists; split; [reflexivity|].
  destruct (String.eqb k "ArrowLeft"), (String.eqb k "ArrowRight"), (String.eqb k "ArrowUp"),
    (String.eqb k "ArrowDown"); minmax; lra.
Qed.

Lemma truthy_some (s : string) : s <> ""%string -> truthy (Some s) = true.
Proof.
  intros H. cbn. destruct (String.eqb s "") eqn:E; [apply String.eqb_eq in E; congruence | reflexivity].
Qed.

(** X7: with a template loaded, no image selected and a (non-empty) text id
    selected whose anchor lies in the frame ([0 <= x <= w], [size <= y <= h]),
    an arrow key records exactly one history entry and the moved anchor stays
    in that range; the other fields of the text are unchanged. *)
Lemma arrow_text_in_frame (e : KeyEvent) (ed : Editor) (t : TextItem)
    (Hb : baseImage ed <> None) (Hsel : selectedImageId ed = None)
    (Htsel : selectedTextId ed = Some (t_id t)) (Hne : t_id t <> ""%string)
    (Hk : In (key e) arrow_keys)
    (Hf : find (fun x => id_is (t_id t) (t_id x)) (texts (state ed)) = Some t)
    (Hin : 0 <= t_x t <= fst (contentSize ed) /\ t_size t <= t_y t <= snd (contentSize ed)) :
  let ed' := onKey e ed in
  entries (hist ed') = firstn (cursor (hist ed) + 1) (entries (hist ed)) ++ [state ed']
  /\ exists x y,
       find (fun x => id_is (t_id t) (t_id x)) (texts (state ed'))
         = Some (mkText (t_id t) (t_text t) x y (t_size t) (t_color t) (t_font t) (t_rotationDeg t))
       /\ 0 <= x <= fst (contentSize ed)
       /\ t_size t <= y <= snd (contentSize ed).
Proof.
  destruct e as [k c m sh]. cbn [key] in *.
  destruct (arrow_key_facts k Hk) as (K1 & K2 & K3 & _ & K5).
  unfold onKey. destruct (baseImage ed) as [b|] eqn:Eb; [|congruence]. cbn [key ctrlKey metaKey shiftKey].
  rewrite K1, K2, K3, !andb_false_r.
  set (step := if sh then 10 else 1).
  assert (Hst : 0 < step) by (unfold step; destruct sh; reflexivity).
  clearbody step.
  rewrite Hsel, Htsel, (truthy_some _ Hne).
  unfold onKey_text. cbn [key].
  destruct (contentSize ed) as [cw ch] eqn:Ec. cbn [fst snd] in *.
  rewrite Hf, K5.
  split; [reflexivity|].
  rewrite state_push; cbn [texts set_texts].
  erewrite find_map_update; [| exact Hf | reflexivity].
  do 2 eexists; split; [reflexivity|].
  destruct (String.eqb k "ArrowLeft"), (String.eqb k "ArrowRight"), (String.eqb k "ArrowUp"),
    (String.eqb k "ArrowDown"); minmax; lra.
Qed.

Lemma remove_text_gone (id : string) (ed : Editor) :
  ~ In id (map t_id (texts (state (removeText id ed)))).
Proof.
  unfold removeText. cbv zeta.
  destruct (sel_is _ _); cbn [state set_editingTextId set_selectedTextId hist];
  change (current (hist (push ?e ?s))) with s; cbn [texts set_texts];
  intros Hin; apply in_map_iff in Hin as (x & Ex & Hx); apply filter_In in Hx as [_ Hx];
  unfold id_is in Hx; rewrite Ex, String.eqb_refl in Hx; discriminate.
Qed.

(** X8: with a template loaded, no image selected and a text selected,
    Backspace does nothing while a text is being edited and removes the text
    otherwise, and Delete always removes it; the removal leaves no text with
    that id and clears the selection and the editing id. *)
Lemma delete_keys_text (c m sh : bool) (ed : Editor) (t : TextItem)
    (Hb : baseImage ed <> None) (Hsel : selectedImageId ed = None)
    (Htsel : selectedTextId ed = Some (t_id t)) (Hne : t_id t <> ""%string)
    (Hf : find (fun x => id_is (t_id t) (t_id x)) (texts (state ed)) = Some t) :
  (truthy (editingTextId ed) = true -> onKey (mkKey "Backspace" c m sh) ed = ed)
  /\ (truthy (editingTextId ed) = false -> onKey (mkKey "Backspace" c m sh) ed = removeText (t_id t) ed)
  /\ onKey (mkKey "Delete" c m sh) ed = removeText (t_id t) ed
  /\ ~ In (t_id t) (map t_id (texts (state (removeText (t_id t) ed))))
  /\ selectedTextId (removeText (t_id t) ed) = None /\ editingTextId (removeText (t_id t) ed) = None.
Proof.
  assert (Hk : forall k, key_lower_is k "z" "Z" = false -> key_lower_is k "y" "Y" = false ->
            String.eqb k "Escape" = false -> existsb (includes k) arrow_keys = false ->
            onKey (mkKey k c m sh) ed
            = if String.eqb k "Delete" || (String.eqb k "Backspace" && negb (truthy (editingTextId ed)))
              then removeText (t_id t) ed else ed).
  { intros k K1 K2 K3 K4. unfold onKey. destruct (baseImage ed) as [b|]; [|congruence].
    cbn [key ctrlKey metaKey shiftKey]. rewrite K1, K2, K3, !andb_false_r.
    rewrite Hsel, Htsel, (truthy_some _ Hne). unfold onKey_text. cbn [key].
    destruct (contentSize ed). rewrite Hf, K4. reflexivity. }
  split; [|split; [|split; [|split]]].
  - intros E. rewrite Hk by reflexivity. rewrite E. reflexivity.
  - intros E. rewrite Hk by reflexivity. rewrite E. reflexivity.
  - rewrite Hk by reflexivity. reflexivity.
  - apply remove_text_gone.
  - unfold removeText. cbv zeta. unfold sel_is. rewrite Htsel, String.eqb_refl. split; reflexivity.
Qed.

Lemma arrow_image_in_frame_witness :
  exists x y,
    find (fun x => id_is "a" (i_id x))
      (images (state (onKey (mkKey "ArrowRight" false false true)
        (mkEditor (History.reset (set_images defaultState [img "a" 0]))
           (Some (800, 600)) None (Some "a"%string) None [] true))))
    = Some (mkImage "a" "" x y 100 100)
    /\ 0 <= x <= 800 - 100 /\ 0 <= y <= 600 - 100.
Proof.
  refine (proj2 (arrow_image_in_frame (mkKey "ArrowRight" false false true)
    (mkEditor (History.reset (set_images defaultState [img "a" 0]))
       (Some (800, 600)) None (Some "a"%string) None [] true)
    "a" (img "a" 0) _ _ _ _ _ _)).
  - discriminate.
  - reflexivity.
  - discriminate.
  - right; left; reflexivity.
  - reflexivity.
  - cbn. split; split; lra.
Defined.

Lemma arrow_text_in_frame_witness :
  exists x y,
    find (fun x => id_is "t" (t_id x))
      (texts (state (onKey (mkKey "ArrowDown" false false false)
        (mkEditor (History.reset (set_texts defaultState [mkText "t" "hi" 10 50 40 "#000" "Impact" None]))
           (Some (800, 600)) (Some "t"%string) None None [] true))))
    = Some (mkText "t" "hi" x y 40 "#000" "Impact" None)
    /\ 0 <= x <= 800 /\ 40 <= y <= 600.
Proof.
  refine (proj2 (arrow_text_in_frame (mkKey "ArrowDown" false false false)
    (mkEditor (History.reset (set_texts defaultState [mkText "t" "hi" 10 50 40 "#000" "Impact" None]))
       (Some (800, 600)) (Some "t"%string) None None [] true)
    (mkText "t" "hi" 10 50 40 "#000" "Impact" None) _ _ _ _ _ _ _)).
  - discriminate.
  - reflexivity.
  - reflexivity.
  - discriminate.
  - right; right; right; left; reflexivity.
  - reflexivity.
  - cbn. split; split; lra.
Defined.

Lemma delete_keys_text_witness :
  onKey (mkKey "Backspace" false false false)
    (mkEditor (History.reset (set_texts defaultState [mkText "t" "hi" 10 50 40 "#000" "Impact" None]))
       (Some (800, 600)) (Some "t"%string) None (Some "t"%string) [] true)
  = mkEditor (History.reset (set_texts defaultState [mkText "t" "hi" 10 50 40 "#000" "Impact" None]))
       (Some (800, 600)) (Some "t"%string) None (Some "t"%string) [] true.
Proof.
  apply (proj1 (delete_keys_text false false false
    (mkEditor (History.reset (set_texts defaultState [mkText "t" "hi" 10 50 40 "#000" "Impact" None]))
       (Some (800, 600)) (Some "t"%string) None (Some "t"%string) [] true)
    (mkText "t" "hi" 10 50 40 "#000" "Impact" None) ltac:(discriminate) eq_refl eq_refl
    ltac:(discriminate) eq_refl)).
  reflexivity.
Defined.

Ltac minmax_inner :=
  unfold Math_max, Math_min in *;
  repeat match goal with
         | |- context [Qle_bool ?a ?b] =>
             lazymatch b with context [Qle_bool _ _] => fail | _ => idtac end;
             lazymatch a with context [Qle_bool _ _] => fail | _ => idtac end;
             let E := fresh "E" in
             destruct (Qle_bool a b) eqn:E;
             [apply Qle_bool_iff in E | apply Qle_bool_false in E]
         end.

Ltac size_finish :=
  first [ lra | (exfalso; lra)
        | (left; split; [lra|lia]) | (right; split; [lra|lia])
        | (exfalso; repeat match goal with D : _ \/ _ |- _ => destruct D | D : _ /\ _ |- _ => destruct D end;
           first [lia | lra]) ].

(** X9: with the text tool and a (non-empty) selected text id that exists,
    the wheel sets that text's size through [updateText]: the new size lies in
    [8, 256], scrolling up ([deltaY <= 0]) never shrinks and scrolling down
    never grows an integer size [n] in [8, 256], and the size stays the same
    exactly when scrolling up with [n <= 9] or [n = 256], or scrolling down
    with [n <= 10]. *)
Lemma wheel_text_size (deltaY : Q) (ed : Editor) (t : TextItem) (n : Z)
    (Htsel : selectedTextId ed = Some (t_id t)) (Hne : t_id t <> ""%string)
    (Hf : find (fun x => id_is (t_id t) (t_id x)) (texts (state ed)) = Some t)
    (Hn : t_size t = inject_Z n) (Hr : (8 <= n <= 256)%Z) :
  exists sz,
    onCanvasWheel ToolText deltaY ed
      = updateText (t_id t) (mkPatch None None None (Some sz) None None None) ed
    /\ 8 <= sz <= 256
    /\ (deltaY <= 0 -> t_size t <= sz)
    /\ (0 < deltaY -> sz <= t_size t)
    /\ (sz == t_size t <-> (deltaY <= 0 /\ (n <= 9 \/ n = 256)%Z) \/ (0 < deltaY /\ (n <= 10)%Z)).
Proof.
  unfold onCanvasWheel. cbv zeta. rewrite Htsel, (truthy_some _ Hne), Hf.
  eexists; split; [reflexivity|].
  rewrite Hn.
  assert (H8 : 8 <= inject_Z n) by (rewrite <- (Zle_Qle 8); lia).
  assert (H256 : inject_Z n <= 256) by (rewrite <- (Zle_Qle _ 256); lia).
  destruct (Qle_bool deltaY 0) eqn:Ed; [apply Qle_bool_iff in Ed | apply Qle_bool_false in Ed].
  - assert (L : inject_Z n <= Math_round (inject_Z n * (21 # 20))) by (apply int_le_round; lra).
    destruct (Z.le_gt_cases n 9) as [Hs|Hs].
    + assert (U : Math_round (inject_Z n * (21 # 20)) <= inject_Z n).
      { apply round_le_int. assert (inject_Z n <= 9) by (rewrite <- (Zle_Qle _ 9); lia). lra. }
      minmax_inner; (split; [split; lra|]); (split; [intros; lra|]); (split; [intros; lra|]); split; intros; size_finish.
    + assert (U : inject_Z (n + 1) <= Math_round (inject_Z n * (21 # 20))).
      { apply int_le_round. rewrite inject_Z_plus.
        assert (10 <= inject_Z n) by (rewrite <- (Zle_Qle 10); lia). change (inject_Z 1) with 1. lra. }
      rewrite inject_Z_plus in U. change (inject_Z 1) with 1 in U.
      destruct (Z.eq_dec n 256) as [E256|E256].
      * assert (inject_Z n == 256) by (subst n; reflexivity). minmax_inner; (split; [split; lra|]); (split; [intros; lra|]); (split; [intros; lra|]); split; intros; size_finish.
      * assert (inject_Z n <= 255) by (rewrite <- (Zle_Qle _ 255); lia).
        minmax_inner; (split; [split; lra|]); (split; [intros; lra|]); (split; [intros; lra|]); split; intros; size_finish.
  - assert (U : Math_round (inject_Z n * (19 # 20)) <= inject_Z n) by (apply round_le_int; lra).
    destruct (Z.le_gt_cases n 10) as [Hs|Hs].
    + assert (L : inject_Z n <= Math_round (inject_Z n * (19 # 20))).
      { apply int_le_round. assert (inject_Z n <= 10) by (rewrite <- (Zle_Qle _ 10); lia). lra. }
      minmax_inner; (split; [split; lra|]); (split; [intros; lra|]); (split; [intros; lra|]); split; intros; size_finish.
    + assert (H11 : 11 <= inject_Z n) by (rewrite <- (Zle_Qle 11); lia).
      assert (U' : Math_round (inject_Z n * (19 # 20)) <= inject_Z (n - 1)).
      { apply round_le_int. rewrite <- int_sub. change (inject_Z 1) with 1. lra. }
      rewrite <- int_sub in U'. change (inject_Z 1) with 1 in U'.
      minmax_inner; (split; [split; lra|]); (split; [intros; lra|]); (split; [intros; lra|]); split; intros; size_finish.
Qed.

(** X10: the wheel changes the editor only with the image tool and a selected
    image id present among the images, or with the text tool and a selected
    text id present among the texts; otherwise it records nothing. *)
Lemma wheel_needs_target (tool : Tool) (deltaY : Q) (ed : Editor) :
  onCanvasWheel tool deltaY ed <> ed ->
  (tool = ToolImage /\ exists iid, selectedImageId ed = Some iid
     /\ find (fun x => id_is iid (i_id x)) (images (state ed)) <> None)
  \/ (tool = ToolText /\ exists tid, selectedTextId ed = Some tid
     /\ find (fun x => id_is tid (t_id x)) (texts (state ed)) <> None).
Proof.
  intros H. unfold onCanvasWheel in H. cbv zeta in H.
  destruct tool; try congruence.
  - right. split; [reflexivity|].
    destruct (selectedTextId ed) as [tid|]; [|congruence].
    destruct (truthy (Some tid)); [|congruence].
    destruct (find _ (texts (state ed))) eqn:F; [|congruence].
    exists tid. rewrite F. split; [reflexivity | discriminate].
  - left. split; [reflexivity|].
    destruct (selectedImageId ed) as [iid|]; [|congruence].
    destruct (truthy (Some iid)); [|congruence].
    unfold scaleImage in H. destruct (find _ (images (state ed))) eqn:F; [|congruence].
    exists iid. rewrite F. split; [reflexivity | discriminate].
Qed.

Lemma wheel_needs_target_witness :
  onCanvasWheel ToolText (-1) wheel_ed <> wheel_ed
  /\ ((ToolText = ToolImage /\ exists iid, selectedImageId wheel_ed = Some iid
        /\ find (fun x => id_is iid (i_id x)) (images (state wheel_ed)) <> None)
      \/ (ToolText = ToolText /\ exists tid, selectedTextId wheel_ed = Some tid
        /\ find (fun x => id_is tid (t_id x)) (texts (state wheel_ed)) <> None)).
Proof.
  assert (H : onCanvasWheel ToolText (-1) wheel_ed <> wheel_ed).
  { intros E. apply (f_equal (fun e => length (entries (hist e)))) in E.
    vm_compute in E. discriminate E. }
  exact (conj H (wheel_needs_target ToolText (-1) wheel_ed H)).
Defined.

Lemma js_mod360_range (a : Q) :
  js_mod360 a == a - 360 * inject_Z (if Qle_bool 0 (a / 360) then Qfloor (a / 360) else (- Qfloor (- (a / 360)))%Z)
  /\ (0 <= a -> 0 <= js_mod360 a < 360)
  /\ (a < 0 -> -360 < js_mod360 a <= 0).
Proof.
  unfold js_mod360. cbv zeta.
  split; [reflexivity|].
  destruct (Qle_bool 0 (a / 360)) eqn:E; [apply Qle_bool_iff in E | apply Qle_bool_false in E].
  - pose proof (Qfloor_le (a / 360)). pose proof (Qlt_floor (a / 360)).
    rewrite inject_Z_plus in H0. change (inject_Z 1) with 1 in H0.
    split; intros; [split|]; qlra.
  - pose proof (Qfloor_le (- (a / 360))). pose proof (Qlt_floor (- (a / 360))).
    rewrite inject_Z_plus in H0. change (inject_Z 1) with 1 in H0.
    rewrite inject_Z_opp.
    split; intros; [|split]; qlra.
Qed.

Lemma js_mod360_rem (a : Q) : rem360_of a (js_mod360 a).
Proof.
  destruct (js_mod360_range a) as (E & P & N). split; [eexists; exact E | split; assumption].
Qed.

Lemma Forall2_map_self {X} (f : X -> X) (l : list X) :
  Forall2 (fun x x' => x' = f x) l (map f l).
Proof. induction l as [|a l IH]; constructor; [reflexivity | exact IH]. Qed.

(** X11: [rotateBy] and the rotate handle store the JS remainder of the new
    angle by 360: it differs from the unreduced angle [a] by a multiple of
    360, lies in [0, 360) when [a >= 0] and in (-360, 0] when [a < 0].
    [rotateBy] changes nothing else of the state; the handle sets the
    rotation of the texts with the session's id and changes nothing else:
    the other texts, the images, the strokes, the background and the
    canvas rotation stay as they were. *)
Theorem rotation_remainder (mw : string -> Q -> string -> Q) (atan2_deg : Q -> Q -> Q)
    (hypot : Q -> Q -> Q) :
  (forall delta ed,
     let s := state ed in
     let s' := state (rotateBy delta ed) in
     rem360_of (rotationDeg s + delta) (rotationDeg s')
     /\ bgColor s' = bgColor s /\ texts s' = texts s /\ strokes s' = strokes s
     /\ images s' = images s)
  /\ (forall tf drawing pt ed t ccx ccy,
        tf_mode tf = ModeRotate ->
        find (fun x => id_is (tf_id tf) (t_id x)) (texts (state ed)) = Some t ->
        centerX tf = Some ccx -> centerY tf = Some ccy ->
        let s := state ed in
        let s' := state (onCanvasPointerMove mw atan2_deg hypot ToolText (Some tf) drawing pt ed) in
        exists r,
          find (fun x => id_is (tf_id tf) (t_id x)) (texts s')
          = Some (mkText (t_id t) (t_text t) (t_x t) (t_y t) (t_size t) (t_color t) (t_font t) (Some r))
          /\ rem360_of (pick (initialRotationDeg tf) 0
                        + (atan2_deg (snd pt - ccy) (fst pt - ccx) - pick (startAngleDeg tf) 0)) r
          /\ Forall2 (fun x x' => x' = if id_is (tf_id tf) (t_id x)
                                       then mkText (t_id x) (t_text x) (t_x x) (t_y x) (t_size x)
                                              (t_color x) (t_font x) (Some r)
                                       else x) (texts s) (texts s')
          /\ images s' = images s /\ strokes s' = strokes s /\ bgColor s' = bgColor s
          /\ rotationDeg s' = rotationDeg s).
Proof.
  split.
  - intros delta ed. cbv zeta. split; [apply js_mod360_rem|].
    repeat split; reflexivity.
  - intros tf drawing pt ed t ccx ccy Hm Hf Hx Hy. cbv zeta.
    unfold onCanvasPointerMove. destruct (contentSize ed) as [cw ch].
    rewrite Hm, Hf, Hx, Hy. eexists. split; [|split; [|split]].
    + unfold setState, state. cbn [hist set_hist History.current texts set_texts].
      change (History.current (hist ed)) with (state ed).
      unfold map_text. erewrite find_map_update; [reflexivity | exact Hf | reflexivity].
    + apply js_mod360_rem.
    + change (state (setState ed ?s)) with s. cbn [texts set_texts].
      unfold map_text. apply Forall2_map_self.
    + repeat split; reflexivity.
Qed.

(** X12: dragging a text's resize handle (with a non-zero reference length
    [hypot(initialW, h)]) records no history entry and gives the text an
    integer size in [8, 256], the other fields unchanged. *)
Theorem text_resize_size (mw : string -> Q -> string -> Q) (atan2_deg : Q -> Q -> Q)
    (hypot : Q -> Q -> Q) (tf : Transform) (drawing : option string) (pt : Q * Q)
    (ed : Editor) (t : TextItem) (iw isz : Q)
    (Hm : tf_mode tf = ModeResize)
    (Hf : find (fun x => id_is (tf_id tf) (t_id x)) (texts (state ed)) = Some t)
    (Hw : initialW tf = Some iw) (Hs : initialSize tf = Some isz)
    (Hhyp : ~ hypot iw (t_size t) == 0) :
  let ed' := onCanvasPointerMove mw atan2_deg hypot ToolText (Some tf) drawing pt ed in
  entries (hist ed') = entries (hist ed) /\ cursor (hist ed') = cursor (hist ed)
  /\ exists sz,
       find (fun x => id_is (tf_id tf) (t_id x)) (texts (state ed'))
         = Some (mkText (t_id t) (t_text t) (t_x t) (t_y t) sz (t_color t) (t_font t) (t_rotationDeg t))
       /\ 8 <= sz <= 256 /\ is_int sz.
Proof.
  unfold onCanvasPointerMove. destruct (contentSize ed) as [cw ch].
  rewrite Hm, Hf, Hw, Hs. cbv zeta.
  split; [reflexivity|]. split; [reflexivity|].
  eexists. split.
  - unfold setState, state. cbn [hist set_hist History.current texts set_texts].
    change (History.current (hist ed)) with (state ed).
    unfold map_text. erewrite find_map_update; [reflexivity | exact Hf | reflexivity].
  - split.
    + minmax_inner; split; lra.
    + apply max_min_int; [exists 8%Z; reflexivity | exists 256%Z; reflexivity | apply round_is_int].
Qed.

Lemma text_resize_size_witness :
  exists sz,
    find (fun x => id_is "t" (t_id x))
      (texts (state (onCanvasPointerMove (fun _ _ _ => 10) (fun _ _ => 0) (fun a b => a + b) ToolText
         (Some (mkTransform ModeResize "t" None None None None None None None (Some 40) (Some 40) (Some 40)))
         None (500, 500) wheel_ed)))
    = Some (mkText "t" "hi" 10 50 sz "#000" "Impact" None) /\ 8 <= sz <= 256 /\ is_int sz.
Proof.
  exact (proj2 (proj2 (text_resize_size (fun _ _ _ => 10) (fun _ _ => 0) (fun a b => a + b)
    (mkTransform ModeResize "t" None None None None None None None (Some 40) (Some 40) (Some 40))
    None (500, 500) wheel_ed (mkText "t" "hi" 10 50 40 "#000" "Impact" None) 40 40
    eq_refl eq_refl eq_refl eq_refl ltac:(discriminate)))).
Defined.

Lemma clamp_Qeq (lo hi a a' : Q) :
  a == a' -> Math_max lo (Math_min hi a) == Math_max lo (Math_min hi a').
Proof. intros E. minmax_inner; lra. Qed.

(** X13: pressing on an image with a non-empty id (not on its resize corner)
    with the image tool selects it, and a following move by [(fst pt' - fst pt, snd pt' - snd pt)]
    moves the image by that offset, clamped to [0, w - i_w] x [0, h - i_h],
    its size unchanged. *)
Theorem image_grab_then_drag (mw : string -> Q -> string -> Q) (trig : Q -> Q * Q)
    (atan2_deg : Q -> Q -> Q) (hypot : Q -> Q -> Q) (pt pt' : Q * Q)
    (fresh color : string) (size : Q) (ed : Editor) (it : ImageItem)
    (Hne : i_id it <> ""%string)
    (Hh : hitTestImage pt (images (state ed)) = mkImageHit (Some (i_id it)) false)
    (Hf : find (fun x => id_is (i_id it) (i_id x)) (images (state ed)) = Some it) :
  let '(ed1, tf) := onCanvasPointerDown mw trig atan2_deg ToolImage pt fresh color size ed in
  selectedImageId ed1 = Some (i_id it)
  /\ exists x y,
       find (fun x => id_is (i_id it) (i_id x))
         (images (state (onCanvasPointerMove mw atan2_deg hypot ToolImage tf None pt' ed1)))
       = Some (mkImage (i_id it) (i_src it) x y (i_w it) (i_h it))
       /\ x == Math_max 0 (Math_min (fst (contentSize ed) - i_w it) (i_x it + (fst pt' - fst pt)))
       /\ y == Math_max 0 (Math_min (snd (contentSize ed) - i_h it) (i_y it + (snd pt' - snd pt))).
Proof.
  unfold onCanvasPointerDown. cbv zeta. rewrite Hh. cbn [ih_id ih_isOnResize].
  rewrite (truthy_some _ Hne). cbn [negb]. rewrite Hf.
  split; [reflexivity|].
  unfold onCanvasPointerMove.
  change (state (set_selectedImageId ed (Some (i_id it)))) with (state ed).
  change (contentSize (set_selectedImageId ed (Some (i_id it)))) with (contentSize ed).
  destruct (contentSize ed) as [cw ch]. cbn [tf_target tf_mode tf_id offsetX offsetY pick fst snd].
  rewrite Hf. do 2 eexists. split.
  - unfold setState, state. cbn [hist set_hist History.current images set_images].
    change (History.current (hist (set_selectedImageId ed (Some (i_id it))))) with (state ed).
    unfold map_image. erewrite find_map_update; [reflexivity | exact Hf | reflexivity].
  - split; apply clamp_Qeq; ring.
Qed.

Lemma image_grab_then_drag_witness :
  let '(ed1, tf) := onCanvasPointerDown (fun _ _ _ => 10) (fun _ => (1, 0)) (fun _ _ => 0)
                      ToolImage (50, 50) "s" "#000" 4 grab_ed in
  selectedImageId ed1 = Some "a"%string
  /\ exists x y,
       find (fun x => id_is "a" (i_id x))
         (images (state (onCanvasPointerMove (fun _ _ _ => 10) (fun _ _ => 0) (fun a b => a + b)
                           ToolImage tf None (80, 70) ed1)))
       = Some (mkImage "a" "" x y 100 100)
       /\ x == Math_max 0 (Math_min (800 - 100) (0 + (80 - 50)))
       /\ y == Math_max 0 (Math_min (600 - 100) (0 + (70 - 50))).
Proof.
  exact (image_grab_then_drag (fun _ _ _ => 10) (fun _ => (1, 0)) (fun _ _ => 0) (fun a b => a + b)
    (50, 50) (80, 70) "s" "#000" 4 grab_ed (img "a" 0) ltac:(discriminate) eq_refl eq_refl).
Defined.

(** X14: the image resize handle records no history entry, keeps the image's
    position, and gives it a size with [x + w <= frame width] and
    [y + h <= frame height]; each side is at least 16 when the frame leaves
    room for it. *)
Theorem image_resize_fits (mw : string -> Q -> string -> Q) (atan2_deg : Q -> Q -> Q)
    (hypot : Q -> Q -> Q) (tf : Transform) (drawing : option string) (pt : Q * Q)
    (ed : Editor) (it : ImageItem) (startW startH : Q)
    (Ht : tf_target tf = Some TargetImage) (Hm : tf_mode tf = ModeResize)
    (Hf : find (fun x => id_is (tf_id tf) (i_id x)) (images (state ed)) = Some it)
    (Hw : initialW tf = Some startW) (Hh : initialH tf = Some startH) :
  let ed' := onCanvasPointerMove mw atan2_deg hypot ToolImage (Some tf) drawing pt ed in
  entries (hist ed') = entries (hist ed) /\ cursor (hist ed') = cursor (hist ed)
  /\ exists w h,
       find (fun x => id_is (tf_id tf) (i_id x)) (images (state ed'))
         = Some (mkImage (i_id it) (i_src it) (i_x it) (i_y it) w h)
       /\ i_x it + w <= fst (contentSize ed) /\ i_y it + h <= snd (contentSize ed)
       /\ (i_x it + 16 <= fst (contentSize ed) -> 16 <= w)
       /\ (i_y it + 16 <= snd (contentSize ed) -> 16 <= h).
Proof.
  unfold onCanvasPointerMove. destruct (contentSize ed) as [cw ch]. cbn [fst snd].
  rewrite Ht, Hm, Hf, Hw, Hh. cbv zeta.
  split; [reflexivity|]. split; [reflexivity|].
  do 2 eexists. split.
  - unfold setState, state. cbn [hist set_hist History.current images set_images].
    change (History.current (hist ed)) with (state ed).
    unfold map_image. erewrite find_map_update; [reflexivity | exact Hf | reflexivity].
  - set (rw := Math_round _). set (rh := Math_round _).
    minmax_inner; repeat split; intros; lra.
Qed.

Lemma within_iff (pt : Q * Q) (it : ImageItem) :
  (Qle_bool (i_x it) (fst pt) && Qle_bool (fst pt) (i_x it + i_w it)
   && Qle_bool (i_y it) (snd pt) && Qle_bool (snd pt) (i_y it + i_h it)) = true <-> in_box pt it.
Proof.
  unfold in_box. rewrite !andb_true_iff, !Qle_bool_iff. tauto.
Qed.

(** X15: [hitTestImage] returns the last (topmost) image whose box contains
    the point, with [isOnResize] true exactly when the point is within 12 of
    its bottom-right corner on both axes; it returns no id (and no resize)
    exactly when no image contains the point. *)
Theorem hitTestImage_topmost (pt : Q * Q) (imgs : list ImageItem) :
  match hitTestImage pt imgs with
  | mkImageHit None r => r = false /\ forall it, In it imgs -> ~ in_box pt it
  | mkImageHit (Some id) r =>
      exists pre it post, imgs = pre ++ it :: post /\ i_id it = id /\ in_box pt it
      /\ (forall it', In it' post -> ~ in_box pt it')
      /\ (r = true <-> Qabs (fst pt - (i_x it + i_w it)) <= 12 /\ Qabs (snd pt - (i_y it + i_h it)) <= 12)
  end.
Proof.
  unfold hitTestImage.
  match goal with |- context [?g (rev imgs)] => set (go := g) end.
  assert (G : forall l, match go l with
    | mkImageHit None r => r = false /\ forall it, In it l -> ~ in_box pt it
    | mkImageHit (Some id) r =>
        exists pre it post, l = pre ++ it :: post /\ i_id it = id /\ in_box pt it
        /\ (forall it', In it' pre -> ~ in_box pt it')
        /\ (r = true <-> Qabs (fst pt - (i_x it + i_w it)) <= 12 /\ Qabs (snd pt - (i_y it + i_h it)) <= 12)
    end).
  { induction l as [|a l IH].
    - cbn. split; [reflexivity | intros _ []].
    - unfold go; fold go. cbv zeta.
      destruct (Qle_bool (i_x a) (fst pt) && Qle_bool (fst pt) (i_x a + i_w a)
                && Qle_bool (i_y a) (snd pt) && Qle_bool (snd pt) (i_y a + i_h a)) eqn:W.
      + apply within_iff in W. exists [], a, l. split; [reflexivity|]. split; [reflexivity|].
        split; [exact W|]. split; [intros _ []|].
        rewrite andb_true_iff, !Qle_bool_iff. reflexivity.
      + assert (NW : ~ in_box pt a) by (rewrite <- within_iff, W; discriminate).
        destruct (go l) as [[id|] r].
        * destruct IH as (pre & it & post & E & I & B & P & R).
          exists (a :: pre), it, post. rewrite E. split; [reflexivity|]. split; [exact I|].
          split; [exact B|]. split; [|exact R].
          intros it' [<-|Hin]; [exact NW | exact (P it' Hin)].
        * destruct IH as [R N]. split; [exact R|]. intros it [<-|Hin]; [exact NW | exact (N it Hin)]. }
  specialize (G (rev imgs)).
  destruct (go (rev imgs)) as [[id|] r].
  - destruct G as (pre & it & post & E & I & B & P & R).
    exists (rev post), it, (rev pre). split.
    + rewrite <- (rev_involutive imgs), E, rev_app_distr. cbn. rewrite <- app_assoc. reflexivity.
    + split; [exact I|]. split; [exact B|]. split; [|exact R].
      intros it' Hin. apply P. apply in_rev. exact Hin.
  - destruct G as [R N]. split; [exact R|]. intros it Hin. apply N. apply in_rev in Hin. exact Hin.
Qed.

Lemma find_filter_other {X} (key : X -> string) (id sid : string) (l : list X) :
  sid <> id ->
  find (fun x => id_is sid (key x)) (filter (fun x => negb (id_is id (key x))) l)
  = find (fun x => id_is sid (key x)) l.
Proof.
  intros Hne. induction l as [|a l IH]; [reflexivity|]. cbn.
  destruct (id_is id (key a)) eqn:E; cbn.
  - unfold id_is in *. apply String.eqb_eq in E. rewrite E.
    destruct (String.eqb id sid) eqn:E2; [apply String.eqb_eq in E2; congruence|]. exact IH.
  - destruct (id_is sid (key a)); [reflexivity | exact IH].
Qed.

Lemma find_filter_same {X} (key : X -> string) (id : string) (l : list X) :
  find (fun x => id_is id (key x)) (filter (fun x => negb (id_is id (key x))) l) = None.
Proof.
  induction l as [|a l IH]; [reflexivity|]. cbn.
  destruct (id_is id (key a)) eqn:E; cbn; [exact IH|]. rewrite E. exact IH.
Qed.

(** X16: after [removeImage id] ([removeText id]) no image (text) with that id
    remains, and the selected image (text) is gone if it had that id and is
    unchanged otherwise. *)
Theorem remove_clears_selection (id : string) (ed : Editor) :
  getSelectedImage (removeImage id ed)
    = (if sel_is (selectedImageId ed) id then None else getSelectedImage ed)
  /\ getSelectedText (removeText id ed)
    = (if sel_is (selectedTextId ed) id then None else getSelectedText ed)
  /\ ~ In id (map i_id (images (state (removeImage id ed))))
  /\ ~ In id (map t_id (texts (state (removeText id ed)))).
Proof.
  split; [|split; [|split]].
  - unfold removeImage, getSelectedImage. cbv zeta.
    destruct (selectedImageId ed) as [sid|] eqn:S; cbn [sel_is];
      change (selectedImageId (push ed ?s)) with (selectedImageId ed); rewrite ?S; [|reflexivity].
    destruct (String.eqb sid id) eqn:E; [reflexivity|].
    apply String.eqb_neq in E.
    change (selectedImageId (push ed ?s)) with (selectedImageId ed). rewrite S.
    rewrite state_push. apply (find_filter_other i_id id sid). exact E.
  - unfold removeText, getSelectedText. cbv zeta.
    destruct (selectedTextId ed) as [sid|] eqn:S; cbn [sel_is];
      change (selectedTextId (push ed ?s)) with (selectedTextId ed); rewrite ?S; [|reflexivity].
    destruct (String.eqb sid id) eqn:E; [reflexivity|].
    apply String.eqb_neq in E.
    change (selectedTextId (push ed ?s)) with (selectedTextId ed). rewrite S.
    rewrite state_push. apply (find_filter_other t_id id sid). exact E.
  - unfold removeImage. cbv zeta.
    destruct (sel_is _ _); cbn [state set_selectedImageId hist];
    change (current (hist (push ?e ?s))) with s; cbn [images set_images];
    intros Hin; apply in_map_iff in Hin as (x & Ex & Hx); apply filter_In in Hx as [_ Hx];
    unfold id_is in Hx; rewrite Ex, String.eqb_refl in Hx; discriminate.
  - apply remove_text_gone.
Qed.

Lemma wheel_text_size_witness :
  exists sz,
    onCanvasWheel ToolText 1 wheel_ed
      = updateText "t" (mkPatch None None None (Some sz) None None None) wheel_ed
    /\ 8 <= sz <= 256
    /\ (1 <= 0 -> 40 <= sz)
    /\ (0 < 1 -> sz <= 40)
    /\ (sz == 40 <-> (1 <= 0 /\ (40 <= 9 \/ 40 = 256)%Z) \/ (0 < 1 /\ (40 <= 10)%Z)).
Proof.
  exact (wheel_text_size 1 wheel_ed (mkText "t" "hi" 10 50 40 "#000" "Impact" None) 40
    eq_refl ltac:(discriminate) eq_refl eq_refl ltac:(lia)).
Defined.

Lemma image_resize_fits_witness :
  exists w h,
    find (fun x => id_is "a" (i_id x))
      (images (state (onCanvasPointerMove (fun _ _ _ => 10) (fun _ _ => 0) (fun a b => a + b) ToolImage
         (Some (mkTransform ModeResize "a" (Some TargetImage) None None None None None None
                  (Some 100) (Some 100) None))
         None (900, 150) grab_ed)))
    = Some (mkImage "a" "" 0 0 w h)
    /\ 0 + w <= 800 /\ 0 + h <= 600 /\ (0 + 16 <= 800 -> 16 <= w) /\ (0 + 16 <= 600 -> 16 <= h).
Proof.
  exact (proj2 (proj2 (image_resize_fits (fun _ _ _ => 10) (fun _ _ => 0) (fun a b => a + b)
    (mkTransform ModeResize "a" (Some TargetImage) None None None None None None (Some 100) (Some 100) None)
    None (900, 150) grab_ed (img "a" 0) 100 100 eq_refl eq_refl eq_refl eq_refl eq_refl))).
Defined.

Lemma rotate_back (dx dy c s : Q) :
  c * c + s * s == 1 ->
  (dx * c - dy * - s) * c - (dx * - s + dy * c) * s == dx
  /\ (dx * c - dy * - s) * s + (dx * - s + dy * c) * c == dy.
Proof.
  intros H. split.
  - setoid_replace ((dx * c - dy * - s) * c - (dx * - s + dy * c) * s) with (dx * (c * c + s * s)) by ring.
    rewrite H. ring.
  - setoid_replace ((dx * c - dy * - s) * s + (dx * - s + dy * c) * c) with (dy * (c * c + s * s)) by ring.
    rewrite H. ring.
Qed.

(** X18: for a text whose own rotation is 0, with [trig] a rotation
    (even cosine, odd sine, [cos^2 + sin^2 = 1]) and non-degenerate canvas and
    frame sizes, mapping the centre of the inline editor box placed by
    [getTextInputPosition] back through [getContentPointFromClient] gives the
    text's centre, whatever the canvas rotation. *)
Theorem text_input_round_trip (mw : string -> Q -> string -> Q) (trig : Q -> Q * Q)
    (Htrig_eq : forall a b, a == b -> trig a = trig b)
    (Htrig_neg : forall a, trig (- a) = (fst (trig a), - snd (trig a)))
    (Hunit : forall a, fst (trig a) * fst (trig a) + snd (trig a) * snd (trig a) == 1)
    (rect : Rect) (text : TextItem) (ed : Editor)
    (Hm : canvasMounted ed = true)
    (Hrw : ~ r_width rect == 0) (Hrh : ~ r_height rect == 0)
    (Hcw : ~ fst (contentSize ed) == 0) (Hch : ~ snd (contentSize ed) == 0)
    (Hr : pick (t_rotationDeg text) 0 == 0) :
  let '(lft, tp) := getTextInputPosition mw trig rect text ed in
  let '(w, h) := measureText mw text in
  exists p,
    getContentPointFromClient trig rect
      (lft + (w * (r_width rect / fst (contentSize ed))) / 2)
      (tp + (h * (r_height rect / snd (contentSize ed))) / 2) ed = Some p
    /\ fst p == t_x text + w / 2 /\ snd p == t_y text - h / 2.
Proof.
  assert (Ht : trig (- (rotationDeg (state ed) + pick (t_rotationDeg text) 0))
               = (fst (trig (rotationDeg (state ed))), - snd (trig (rotationDeg (state ed))))).
  { rewrite <- Htrig_neg. apply Htrig_eq. rewrite Hr. ring. }
  pose proof (Hunit (rotationDeg (state ed))) as U.
  unfold getTextInputPosition, getContentPointFromClient. rewrite Hm. cbn [negb].
  destruct (contentSize ed) as [cw ch]. cbn [fst snd] in *.
  destruct (measureText mw text) as [w h].
  rewrite Ht. destruct (trig (rotationDeg (state ed))) as [c s]. cbn [fst snd] in *.
  eexists. split; [reflexivity|]. cbn [fst snd].
  set (dx := t_x text + w / 2 - cw / 2). set (dy := t_y text - h / 2 - ch / 2).
  destruct (rotate_back dx dy c s U) as [R1 R2].
  assert (Px : (r_left rect + (dx * c - dy * - s + cw / 2) * (r_width rect / cw)
                - w * (r_width rect / cw) / 2 + w * (r_width rect / cw) / 2 - r_left rect)
               * (cw / r_width rect) - cw / 2 == dx * c - dy * - s) by (field; split; assumption).
  assert (Py : (r_top rect + (dx * - s + dy * c + ch / 2) * (r_height rect / ch)
                - h * (r_height rect / ch) / 2 + h * (r_height rect / ch) / 2 - r_top rect)
               * (ch / r_height rect) - ch / 2 == dx * - s + dy * c) by (field; split; assumption).
  rewrite Px, Py, R1, R2. unfold dx, dy. split; ring.
Qed.

Lemma text_input_round_trip_witness :
  let '(lft, tp) := getTextInputPosition (fun _ _ _ => 10) (fun _ => (1, 0)) (mkRect 0 0 400 300)
                      (mkText "t" "hi" 10 50 40 "#000" "Impact" None) wheel_ed in
  let '(w, h) := measureText (fun _ _ _ => 10) (mkText "t" "hi" 10 50 40 "#000" "Impact" None) in
  exists p,
    getContentPointFromClient (fun _ => (1, 0)) (mkRect 0 0 400 300)
      (lft + (w * (400 / 800)) / 2) (tp + (h * (300 / 600)) / 2) wheel_ed = Some p
    /\ fst p == 10 + w / 2 /\ snd p == 50 - h / 2.
Proof.
  exact (text_input_round_trip (fun _ _ _ => 10) (fun _ => (1, 0))
    (fun _ _ _ => eq_refl) (fun _ => eq_refl) (fun _ => eq_refl)
    (mkRect 0 0 400 300) (mkText "t" "hi" 10 50 40 "#000" "Impact" None) wheel_ed
    eq_refl ltac:(discriminate) ltac:(discriminate) ltac:(discriminate) ltac:(discriminate) eq_refl).
Defined.
